(** * artha-position-checker: the liquidation endpoint and its persistence helper

    A shallow embedding of [src/app/api/auction/route.ts] and
    [src/services/liquidation-service.ts].

    - JavaScript numbers are IEEE 754 binary64 values ([spec_float]: a NaN,
      signed zeros and infinities, and [m * 2^e]); their division and
      multiplication are ECMAScript's Number::divide and Number::multiply,
      the exact result rounded to the nearest Number, ties to even; bigints
      are [Z]; strings are [string] (the bytes of their UTF-8 encoding).
    - [async] functions are state-passing computations that may throw: the
      state carries the outside world (indexer, NFT proxy, chain), the console
      and the database table.
    - The TypeScript types [PositionSchema], [AlchemyNftSchema] and
      [AuctionApiSchema] and the Prisma schema of the [liquidation] table are
      declared outside the two source files; the records below carry the
      fields the code reads and writes.
    - The database is part of the outside world: it decides in which order
      the upserts started together reach the table, and whether it carries
      out an upsert, or answers a read, or rejects it. *)

From Stdlib Require Import String Ascii List ZArith QArith Qround Qpower Lia Lqa Bool Permutation.
From Stdlib Require Import DecimalString DecimalN SpecFloat.
Import ListNotations.

Local Open Scope string_scope.
Local Open Scope Z_scope.

(** ** The JavaScript runtime the sources rely on *)

Module JS.

(** A thrown value: an [Error] object (with its constructor's name and its
    message) or anything else a library may reject with. *)
Inductive exn : Type :=
| ErrorObj (name message : string)
| NonError (description : string).

Definition Error (message : string) : exn := ErrorObj "Error" message.
Definition TypeError (message : string) : exn := ErrorObj "TypeError" message.
Definition SyntaxError (message : string) : exn := ErrorObj "SyntaxError" message.

(** [error instanceof Error ? error.message : 'Unknown error'] *)
Definition message_or_unknown (e : exn) : string :=
  match e with
  | ErrorObj _ m => m
  | NonError _ => "Unknown error"
  end.

(** The outcome of evaluating an expression or awaiting a promise. *)
Inductive completion (A : Type) : Type :=
| Ok (a : A)
| Throw (e : exn).
Arguments Ok {A} a.
Arguments Throw {A} e.

(** A value that may be missing: [undefined] and [null] are told apart
    where the sources do ([BigInt], [===], a property read); [option] is used
    for the fields they only guard with [?.] or [||], which treat the two
    alike. *)
Inductive nullable (A : Type) : Type :=
| undefined
| null
| value (a : A).
Arguments undefined {A}.
Arguments null {A}.
Arguments value {A} a.

Definition defined {A : Type} (x : nullable A) : option A :=
  match x with
  | value a => Some a
  | undefined | null => None
  end.

(** *** Strings *)

(** [s.split(sep)] for a one-character separator. *)
Fixpoint split (sep : ascii) (s : string) : list string :=
  match s with
  | EmptyString => [EmptyString]
  | String c rest =>
      if Ascii.eqb c sep then EmptyString :: split sep rest
      else match split sep rest with
           | seg :: segs => String c seg :: segs
           | [] => [String c EmptyString]
           end
  end.

Fixpoint contains (c : ascii) (s : string) : bool :=
  match s with
  | EmptyString => false
  | String d rest => Ascii.eqb d c || contains c rest
  end.

(** [x || d] on a possibly missing string: [undefined], [null] and the empty
    string are falsy. *)
Definition or_default (x : option string) (d : string) : string :=
  match x with
  | Some s => if String.eqb s "" then d else s
  | None => d
  end.

(** [x || null] on a possibly missing string. *)
Definition or_null (x : option string) : option string :=
  match x with
  | Some s => if String.eqb s "" then None else Some s
  | None => None
  end.

Definition string_of_Z (z : Z) : string := NilZero.string_of_int (Z.to_int z).

Fixpoint repeat_char (c : ascii) (n : nat) : string :=
  match n with
  | O => EmptyString
  | S n' => String c (repeat_char c n')
  end.

(** *** BigInt(value) *)

Definition bytes (l : list nat) : list ascii := map ascii_of_nat l.

(** WhiteSpace and LineTerminator code points, as UTF-8 byte sequences. *)
Definition white_space : list (list ascii) :=
  map bytes
    [ [9%nat]; [10%nat]; [11%nat]; [12%nat]; [13%nat]; [32%nat];
      [194; 160]%nat; [225; 154; 128]%nat;
      [226; 128; 128]%nat; [226; 128; 129]%nat; [226; 128; 130]%nat;
      [226; 128; 131]%nat; [226; 128; 132]%nat; [226; 128; 133]%nat;
      [226; 128; 134]%nat; [226; 128; 135]%nat; [226; 128; 136]%nat;
      [226; 128; 137]%nat; [226; 128; 138]%nat;
      [226; 128; 168]%nat; [226; 128; 169]%nat; [226; 128; 175]%nat;
      [226; 129; 159]%nat; [227; 128; 128]%nat; [239; 187; 191]%nat ].

Fixpoint strip_prefix (p l : list ascii) : option (list ascii) :=
  match p, l with
  | [], _ => Some l
  | a :: p', b :: l' => if Ascii.eqb a b then strip_prefix p' l' else None
  | _ :: _, [] => None
  end.

Fixpoint strip_any (ps : list (list ascii)) (l : list ascii) : option (list ascii) :=
  match ps with
  | [] => None
  | p :: ps' =>
      match strip_prefix p l with
      | Some r => Some r
      | None => strip_any ps' l
      end
  end.

Fixpoint trim_start_fuel (fuel : nat) (ps : list (list ascii)) (l : list ascii)
  : list ascii :=
  match fuel with
  | O => l
  | S fuel' =>
      match strip_any ps l with
      | Some r => trim_start_fuel fuel' ps r
      | None => l
      end
  end.

Definition trim_start (ps : list (list ascii)) (l : list ascii) : list ascii :=
  trim_start_fuel (length l) ps l.

Definition trim (l : list ascii) : list ascii :=
  rev (trim_start (map (@rev ascii) white_space) (rev (trim_start white_space l))).

Definition digit_value (c : ascii) : option Z :=
  let n := Z.of_nat (nat_of_ascii c) in
  if (48 <=? n) && (n <=? 57) then Some (n - 48)
  else if (97 <=? n) && (n <=? 102) then Some (n - 87)
  else if (65 <=? n) && (n <=? 70) then Some (n - 55)
  else None.

Fixpoint parse_digits_from (radix acc : Z) (l : list ascii) : option Z :=
  match l with
  | [] => Some acc
  | c :: l' =>
      match digit_value c with
      | Some d => if d <? radix then parse_digits_from radix (radix * acc + d) l' else None
      | None => None
      end
  end.

(** One or more digits of the radix. *)
Definition parse_digits (radix : Z) (l : list ascii) : option Z :=
  match l with
  | [] => None
  | _ :: _ => parse_digits_from radix 0 l
  end.

(** StringToBigInt: surrounding white space is dropped; the empty string is
    [0n]; a decimal literal may carry a sign, a [0x]/[0o]/[0b] literal may
    not; anything else is not a BigInt. *)
Definition StringToBigInt (s : string) : option Z :=
  match trim (list_ascii_of_string s) with
  | [] => Some 0
  | "0"%char :: "x"%char :: ds | "0"%char :: "X"%char :: ds => parse_digits 16 ds
  | "0"%char :: "o"%char :: ds | "0"%char :: "O"%char :: ds => parse_digits 8 ds
  | "0"%char :: "b"%char :: ds | "0"%char :: "B"%char :: ds => parse_digits 2 ds
  | "+"%char :: ds => parse_digits 10 ds
  | "-"%char :: ds => option_map Z.opp (parse_digits 10 ds)
  | ds => parse_digits 10 ds
  end.

(** [BigInt(v)] for a string, [undefined] or [null] argument. *)
Definition BigInt (v : nullable string) : completion Z :=
  match v with
  | undefined => Throw (TypeError "Cannot convert undefined to a BigInt")
  | null => Throw (TypeError "Cannot convert null to a BigInt")
  | value s =>
      match StringToBigInt s with
      | Some z => Ok z
      | None => Throw (SyntaxError ("Cannot convert " ++ s ++ " to a BigInt"))
      end
  end.

(** *** Numbers *)

(** A Number is a binary64 value: NaN, a signed zero, a signed infinity, or
    [m * 2^e] with a sign. *)
Definition Number : Type := spec_float.

Definition pow (b e : Z) : Q :=
  if 0 <=? e then inject_Z (b ^ e) else 1 # (Z.to_pos (b ^ (- e))).

Definition pow2 (e : Z) : Q := pow 2 e.

Definition pow10 (e : Z) : Q := pow 10 e.

(** The real number [m * 2^e]. *)
Definition magnitude (m : positive) (e : Z) : Q := (inject_Z (Zpos m) * pow2 e)%Q.

(** The [l] with [2^l <= q < 2^(l+1)], for a positive [q]. *)
Definition ilog2 (q : Q) : Z :=
  let l := Z.log2 (Qnum q) - Z.log2 (Zpos (Qden q)) in
  if Qle_bool (pow2 l) q then l else l - 1.

(** The integer nearest to [q], the even one of the two when [q] lies half
    way between them. *)
Definition round_half_even (q : Q) : Z :=
  let f := Qfloor q in
  match Qcompare (q - inject_Z f) (1 # 2) with
  | Lt => f
  | Gt => f + 1
  | Eq => if Z.even f then f else f + 1
  end.

(** The Number value of the real number of sign [sign] and magnitude [q]:
    [q] is scaled to 53 significant bits (fewer below [2^-1022]), rounded to
    the nearest integer, ties to even; a result beyond the largest Number is
    an infinity, a result that rounds to nothing is a zero. *)
Definition Number_value (sign : bool) (q : Q) : Number :=
  if Qle_bool q 0 then S754_zero sign
  else
    let e := Z.max (ilog2 q - 52) (-1074) in
    let m := round_half_even (q / pow2 e) in
    let '(m, e) := if m =? 2 ^ 53 then (2 ^ 52, e + 1) else (m, e) in
    if m =? 0 then S754_zero sign
    else if 971 <? e then S754_infinity sign
    else S754_finite sign (Z.to_pos m) e.

(** [x / y], Number::divide. *)
Definition Number_div (x y : Number) : Number :=
  match x, y with
  | S754_nan, _ | _, S754_nan => S754_nan
  | S754_infinity _, S754_infinity _ => S754_nan
  | S754_infinity sx, S754_zero sy
  | S754_infinity sx, S754_finite sy _ _ => S754_infinity (xorb sx sy)
  | S754_zero sx, S754_infinity sy
  | S754_finite sx _ _, S754_infinity sy => S754_zero (xorb sx sy)
  | S754_zero _, S754_zero _ => S754_nan
  | S754_zero sx, S754_finite sy _ _ => S754_zero (xorb sx sy)
  | S754_finite sx _ _, S754_zero sy => S754_infinity (xorb sx sy)
  | S754_finite sx mx ex, S754_finite sy my ey =>
      Number_value (xorb sx sy) (magnitude mx ex / magnitude my ey)
  end.

(** [x * y], Number::multiply. *)
Definition Number_mul (x y : Number) : Number :=
  match x, y with
  | S754_nan, _ | _, S754_nan => S754_nan
  | S754_infinity _, S754_zero _ | S754_zero _, S754_infinity _ => S754_nan
  | S754_infinity sx, S754_infinity sy
  | S754_infinity sx, S754_finite sy _ _
  | S754_finite sx _ _, S754_infinity sy => S754_infinity (xorb sx sy)
  | S754_zero sx, S754_zero sy
  | S754_zero sx, S754_finite sy _ _
  | S754_finite sx _ _, S754_zero sy => S754_zero (xorb sx sy)
  | S754_finite sx mx ex, S754_finite sy my ey =>
      Number_value (xorb sx sy) (magnitude mx ex * magnitude my ey)
  end.

(** [Number(b)] for a bigint [b]: the nearest Number, ties to even. *)
Definition Number_of_BigInt (b : Z) : Number :=
  match b with
  | 0 => S754_zero false
  | Zpos p => Number_value false (inject_Z (Zpos p))
  | Zneg p => Number_value true (inject_Z (Zpos p))
  end.

(** The Number written as an integer literal in the sources or in JSON. *)
Definition Number_of_Z (z : Z) : Number :=
  match z with
  | 0 => S754_zero false
  | Zpos p => Number_value false (inject_Z (Zpos p))
  | Zneg p => Number_value true (inject_Z (Zpos p))
  end.

(** The real numbers that round to the finite Number [m * 2^e]: the interval
    between the midpoints to its two neighbours, closed when [m] is even. *)
Definition round_lo (m : positive) (e : Z) : Q :=
  let narrow := (Pos.eqb m (2 ^ 52)) && (-1074 <? e) in
  (inject_Z (4 * Zpos m - (if narrow then 1 else 2)) * pow2 (e - 2))%Q.

Definition round_hi (m : positive) (e : Z) : Q :=
  (inject_Z (4 * Zpos m + 2) * pow2 (e - 2))%Q.

Definition rounds_to (m : positive) (e : Z) (c : Q) : bool :=
  if Z.even (Zpos m)
  then Qle_bool (round_lo m e) c && Qle_bool c (round_hi m e)
  else negb (Qle_bool c (round_lo m e)) && negb (Qle_bool (round_hi m e) c).

(** The least [n], searched upwards from [n0], with [v < 10^n]. *)
Fixpoint decade_up (fuel : nat) (v : Q) (n0 : Z) : Z :=
  match fuel with
  | O => n0
  | S fuel' => if Qle_bool (pow10 n0) v then decade_up fuel' v (n0 + 1) else n0
  end.

(** The greatest [n], searched downwards from [n0], with [10^(n-1) <= v]. *)
Fixpoint decade_down (fuel : nat) (v : Q) (n0 : Z) : Z :=
  match fuel with
  | O => n0
  | S fuel' => if Qle_bool (pow10 (n0 - 1)) v then n0 else decade_down fuel' v (n0 - 1)
  end.

(** The [n] with [10^(n-1) <= m * 2^e < 10^n]. *)
Definition decade (m : positive) (e : Z) : Z :=
  let v := magnitude m e in
  if Qle_bool 1 v
  then decade_up (S (Z.to_nat (Z.log2 (Qnum v)))) v 1
  else decade_down (S (Z.to_nat (Z.log2 (Zpos (Qden v))))) v 0.

(** Among the decimals with [k] digits before the scale [10^(n-k)], the one
    next to [v] that rounds to [v], the nearer one (the even one on a tie) when
    both neighbours do. *)
Definition digits_at (m : positive) (e n k : Z) : option Z :=
  let v := magnitude m e in
  let unit := pow10 (n - k) in
  let lo := Qfloor (v / unit) in
  let hi := lo + 1 in
  let clo := (inject_Z lo * unit)%Q in
  let chi := (inject_Z hi * unit)%Q in
  match rounds_to m e clo, rounds_to m e chi with
  | true, true =>
      match Qcompare (v - clo) (chi - v) with
      | Lt => Some lo
      | Gt => Some hi
      | Eq => if Z.even lo then Some lo else Some hi
      end
  | true, false => Some lo
  | false, true => Some hi
  | false, false => None
  end.

Fixpoint shortest_from (fuel : nat) (m : positive) (e n k : Z) : Z * Z :=
  match fuel with
  | O => (Qfloor (magnitude m e / pow10 (n - k)), k)
  | S fuel' =>
      match digits_at m e n k with
      | Some s => (s, k)
      | None => shortest_from fuel' m e n (k + 1)
      end
  end.

(** Drop the trailing zeros of a digit string, counting them. *)
Fixpoint strip_zeros (fuel : nat) (s : Z) (dropped : Z) : Z * Z :=
  match fuel with
  | O => (s, dropped)
  | S fuel' =>
      if (s mod 10 =? 0) && (0 <? s) then strip_zeros fuel' (s / 10) (dropped + 1)
      else (s, dropped)
  end.

Definition digits_of (s : Z) : string := NilZero.string_of_uint (N.to_uint (Z.to_N s)).

(** The [n], and the digits of the [s], of Number::toString: [s] is the
    shortest digit string for which [s * 10^(n-k)] still rounds to the
    Number, [k] being its length. *)
Definition shortest_digits (m : positive) (e : Z) : string * Z :=
  let n := decade m e in
  let '(s, k) := shortest_from 17 m e n 1 in
  let '(s', z) := strip_zeros 20 s 0 in
  let ds := digits_of s' in
  (ds, n - k + z + Z.of_nat (String.length ds)).

Definition zeros (n : Z) : string := repeat_char "0" (Z.to_nat n).

(** Number::toString(x, 10) for a positive finite [x], from its digits. *)
Definition format_digits (ds : string) (n : Z) : string :=
  let k := Z.of_nat (String.length ds) in
  if (k <=? n) && (n <=? 21) then ds ++ zeros (n - k)
  else if (0 <? n) && (n <=? 21) then
    substring 0 (Z.to_nat n) ds ++ "." ++ substring (Z.to_nat n) (Z.to_nat (k - n)) ds
  else if (-6 <? n) && (n <=? 0) then "0." ++ zeros (- n) ++ ds
  else
    let ex := n - 1 in
    let sign := if 0 <=? ex then "+" else "-" in
    let mant :=
      if k =? 1 then ds
      else substring 0 1 ds ++ "." ++ substring 1 (Z.to_nat (k - 1)) ds in
    mant ++ "e" ++ sign ++ digits_of (Z.abs ex).

(** [x.toString()] for a Number [x]. *)
Definition Number_toString (x : Number) : string :=
  match x with
  | S754_nan => "NaN"
  | S754_zero _ => "0"
  | S754_infinity false => "Infinity"
  | S754_infinity true => "-Infinity"
  | S754_finite sg m e =>
      let '(ds, n) := shortest_digits m e in
      (if sg then "-" else "") ++ format_digits ds n
  end.

End JS.

Import JS.

(** ** Data model *)

(** [x || d] on a string. *)
Definition or_else (s d : string) : string := if String.eqb s "" then d else s.

(** Modelled from the spec: the owning account of a position, a part of
    [PositionSchema] (declared in [lib/validation/types], which is not among
    the sources). *)
Record Account : Type := { account_id : option string }.

(** Modelled from the spec: the embedded Pool of a position, with the fields
    the endpoint reads out of the lending-pool state the spec lists. *)
Record Pool : Type := {
  oracle : string;
  loanAddress : option string;
  totalBorrowShares : Number;
  totalBorrowAssets : Number
}.

(** Modelled from the spec: [PositionSchema], a position as delivered by the
    indexer: identifier, owning account, embedded pool, token id, nullable
    bidder and borrow share count.  The fields the sources guard with [?.] or
    [||] may be missing; the amounts are Numbers, as the arithmetic of
    [calculateDebt] has them.  [tokenId] goes through [BigInt] and [===],
    which tell [undefined] from [null]. *)
Record PositionSchema : Type := {
  id : option string;
  account : option Account;
  pool : Pool;
  tokenId : nullable string;
  bidder : option string;
  borrowShares : Number
}.

(** Modelled from the spec: the contract part of an NFT metadata record
    (address, name, symbol), each guarded by [||] in the sources. *)
Record NftContract : Type := {
  address : option string;
  name : option string;
  symbol : option string
}.

(** Modelled from the spec: [AlchemyNftSchema], an NFT metadata record of the
    proxy (contract and token id); an object literal [{}] cast to this type
    has none of the fields. *)
Record AlchemyNftSchema : Type := {
  contract : option NftContract;
  nft_tokenId : nullable string
}.

(** [{} as AlchemyNftSchema] *)
Definition empty_object : AlchemyNftSchema :=
  {| contract := None; nft_tokenId := undefined |}.

(** Modelled from the spec: [AuctionApiSchema], a result record of the
    aggregator, with the five fields [getAllLiquidatable] fills in. *)
Record AuctionApiSchema : Type := {
  nftData : AlchemyNftSchema;
  isLiquidatableStatus : bool;
  position : PositionSchema;
  floorPrice : string;
  debt : string
}.

(** The [liquidation] table: its rows, the compound unique key
    [addressIP_tokenId] and the arguments of an upsert. *)
Module Liquidation.

(** Modelled from the spec: a row of the liquidation summary table (the
    Prisma schema is not among the sources), with the columns the [create]
    argument of the upsert writes; unique on ([addressIP], [tokenId]). *)
Record t : Type := {
  addressIP : string;
  nftName : string;
  nftSymbol : string;
  tokenId : string;
  isLiquidatableStatus : bool;
  positionAccount : string;
  loanAddress : string;
  floorPrice : string;
  debt : string;
  bidder : option string
}.

Record key : Type := { k_addressIP : string; k_tokenId : string }.

Record update_data : Type := {
  u_nftName : string;
  u_nftSymbol : string;
  u_isLiquidatableStatus : bool;
  u_positionAccount : string;
  u_loanAddress : string;
  u_floorPrice : string;
  u_debt : string;
  u_bidder : option string
}.

Definition key_of (r : t) : key :=
  {| k_addressIP := addressIP r; k_tokenId := tokenId r |}.

Definition key_eqb (a b : key) : bool :=
  String.eqb (k_addressIP a) (k_addressIP b) && String.eqb (k_tokenId a) (k_tokenId b).

Definition apply_update (u : update_data) (r : t) : t :=
  {| addressIP := addressIP r;
     nftName := u_nftName u;
     nftSymbol := u_nftSymbol u;
     tokenId := tokenId r;
     isLiquidatableStatus := u_isLiquidatableStatus u;
     positionAccount := u_positionAccount u;
     loanAddress := u_loanAddress u;
     floorPrice := u_floorPrice u;
     debt := u_debt u;
     bidder := u_bidder u |}.

(** [prisma.liquidation.upsert({ where, update, create })] on the rows of the
    table: the row with the key is updated in place, and when there is none the
    created row is added.  The result is the new table and the row written. *)
Fixpoint upsert (where_ : key) (update : update_data) (create : t) (rows : list t)
  : list t * t :=
  match rows with
  | [] => ([create], create)
  | r :: rest =>
      if key_eqb (key_of r) where_
      then (apply_update update r :: rest, apply_update update r)
      else let '(rest', w) := upsert where_ update create rest in (r :: rest', w)
  end.

Definition find_unique (k : key) (rows : list t) : option t :=
  List.find (fun r => key_eqb (key_of r) k) rows.

(** The argument of one [prisma.liquidation.upsert] call. *)
Record request : Type := {
  where_ : key;
  update : update_data;
  create : t
}.

End Liquidation.

(** ** The outside world *)

Record Response (A : Type) : Type := {
  ok : bool;
  status : Z;
  json : completion A
}.
Arguments ok {A} _.
Arguments status {A} _.
Arguments json {A} _.

Record GraphQLData : Type := { positions : option (list PositionSchema) }.
Record GraphQLBody : Type := { data : nullable GraphQLData }.
Record NftBody : Type := { ownedNfts : nullable (list AlchemyNftSchema) }.

(** What the endpoint calls: the two HTTP requests (whose URL, headers and
    body are constants of the deployment) and the two contract reads of the
    viem client: [unhealthyList] on the lending contract at its fixed address,
    with the pool id and the token id, and [getPrice] on the oracle at the
    given address, with the token id.  Each call may change the world and may
    fail.

    The database is called through Prisma.  Of the upserts that were started
    and are not settled yet, [next_upsert n] says which of the [n] the
    database takes next (an index, taken modulo [n]); [commit] says whether
    it carries the upsert out ([None]) or rejects it with an error, in which
    case that upsert changes nothing; [find_many] says whether it answers a
    read of the whole table or rejects it. *)
Record Env (W : Type) : Type := {
  fetch_graphql : W -> completion (Response GraphQLBody) * W;
  fetch_nft : W -> completion (Response NftBody) * W;
  unhealthyList : option string -> Z -> W -> completion bool * W;
  getPrice : string -> Z -> W -> completion Z * W;
  next_upsert : nat -> W -> nat * W;
  commit : Liquidation.request -> W -> option exn * W;
  find_many : W -> option exn * W
}.
Arguments fetch_graphql {W} _.
Arguments fetch_nft {W} _.
Arguments unhealthyList {W} _.
Arguments getPrice {W} _.
Arguments next_upsert {W} _.
Arguments commit {W} _.
Arguments find_many {W} _.

(** The state a request runs in.  [invocations] is a ghost trace: the
    argument of every call of [upsertLiquidations]. *)
Record State (W : Type) : Type := {
  world : W;
  console : list (string * exn);
  table : list Liquidation.t;
  invocations : list (list AuctionApiSchema)
}.
Arguments world {W} _.
Arguments console {W} _.
Arguments table {W} _.
Arguments invocations {W} _.

(** ** Computations: state passing with exceptions *)

Definition M (W A : Type) : Type := State W -> completion A * State W.

Definition ret {W A} (a : A) : M W A := fun s => (Ok a, s).

Definition throw {W A} (e : exn) : M W A := fun s => (Throw e, s).

Definition bind {W A B} (m : M W A) (k : A -> M W B) : M W B :=
  fun s =>
    match m s with
    | (Ok a, s') => k a s'
    | (Throw e, s') => (Throw e, s')
    end.

(** [try { m } catch (error) { handler error }] *)
Definition try_catch {W A} (m : M W A) (handler : exn -> M W A) : M W A :=
  fun s =>
    match m s with
    | (Ok a, s') => (Ok a, s')
    | (Throw e, s') => handler e s'
    end.

(** A pure expression that may throw. *)
Definition eval {W A} (c : completion A) : M W A := fun s => (c, s).

(** A call into the outside world. *)
Definition call {W A} (f : W -> completion A * W) : M W A :=
  fun s =>
    let '(r, w) := f (world s) in
    (r, {| world := w; console := console s; table := table s;
           invocations := invocations s |}).

(** [console.error(label, error)] *)
Definition console_error {W} (label : string) (error : exn) : M W unit :=
  fun s =>
    (Ok tt, {| world := world s; console := (console s ++ [(label, error)])%list;
               table := table s; invocations := invocations s |}).

Declare Scope js_scope.
Delimit Scope js_scope with js.
Notation "x <- m ;; k" := (bind m (fun x => k))
  (at level 61, m at next level, right associativity) : js_scope.
Notation "m ;; k" := (bind m (fun _ => k))
  (at level 61, right associativity) : js_scope.
Local Open Scope js_scope.

(** ** src/services/liquidation-service.ts *)

(** The [where] argument of the upsert of one result record. *)
Definition where_of (liquidation : AuctionApiSchema) : Liquidation.key :=
  {| Liquidation.k_addressIP :=
       or_default (match contract (nftData liquidation) with
                   | Some c => address c
                   | None => None
                   end) "";
     Liquidation.k_tokenId := or_default (defined (tokenId (position liquidation))) "" |}.

(** Its [update] argument. *)
Definition update_of (liquidation : AuctionApiSchema) : Liquidation.update_data :=
  {| Liquidation.u_nftName :=
       or_default (match contract (nftData liquidation) with
                   | Some c => name c
                   | None => None
                   end) "";
     Liquidation.u_nftSymbol :=
       or_default (match contract (nftData liquidation) with
                   | Some c => symbol c
                   | None => None
                   end) "";
     Liquidation.u_isLiquidatableStatus := isLiquidatableStatus liquidation;
     Liquidation.u_positionAccount :=
       or_default (match account (position liquidation) with
                   | Some a => account_id a
                   | None => None
                   end) "";
     Liquidation.u_loanAddress := or_default (loanAddress (pool (position liquidation))) "";
     Liquidation.u_floorPrice := or_else (floorPrice liquidation) "0";
     Liquidation.u_debt := or_else (debt liquidation) "0";
     Liquidation.u_bidder := or_null (bidder (position liquidation)) |}.

(** Its [create] argument. *)
Definition create_of (liquidation : AuctionApiSchema) : Liquidation.t :=
  {| Liquidation.addressIP :=
       or_default (match contract (nftData liquidation) with
                   | Some c => address c
                   | None => None
                   end) "";
     Liquidation.nftName :=
       or_default (match contract (nftData liquidation) with
                   | Some c => name c
                   | None => None
                   end) "";
     Liquidation.nftSymbol :=
       or_default (match contract (nftData liquidation) with
                   | Some c => symbol c
                   | None => None
                   end) "";
     Liquidation.tokenId := or_default (defined (tokenId (position liquidation))) "";
     Liquidation.isLiquidatableStatus := isLiquidatableStatus liquidation;
     Liquidation.positionAccount :=
       or_default (match account (position liquidation) with
                   | Some a => account_id a
                   | None => None
                   end) "";
     Liquidation.loanAddress := or_default (loanAddress (pool (position liquidation))) "";
     Liquidation.floorPrice := or_else (floorPrice liquidation) "0";
     Liquidation.debt := or_else (debt liquidation) "0";
     Liquidation.bidder := or_null (bidder (position liquidation)) |}.

(** The object passed to [prisma.liquidation.upsert] for one record. *)
Definition request_of (liquidation : AuctionApiSchema) : Liquidation.request :=
  {| Liquidation.where_ := where_of liquidation;
     Liquidation.update := update_of liquidation;
     Liquidation.create := create_of liquidation |}.

(** A promise of [liquidationOperations] once it is settled: its index in the
    array, the record it was made for, and its outcome. *)
Definition settled : Type := nat * AuctionApiSchema * completion Liquidation.t.

(** The first rejection, in the order in which the promises were settled. *)
Fixpoint first_rejection (outcomes : list settled) : option exn :=
  match outcomes with
  | [] => None
  | (_, _, Throw e) :: _ => Some e
  | (_, _, Ok _) :: rest => first_rejection rest
  end.

Definition fulfilled_at (index : nat) (outcomes : list settled) : list Liquidation.t :=
  match List.find (fun o => Nat.eqb (fst (fst o)) index) outcomes with
  | Some (_, _, Ok row) => [row]
  | _ => []
  end.

(** [Promise.all] of [n] promises: rejected with the first rejection, and
    otherwise fulfilled with the values in the order of the array. *)
Definition Promise_all (n : nat) (outcomes : list settled)
  : completion (list Liquidation.t) :=
  match first_rejection outcomes with
  | Some e => Throw e
  | None => Ok (flat_map (fun index => fulfilled_at index outcomes) (seq 0 n))
  end.

Section Service.
Context {W : Type} (env : Env W).

(** One upsert reaching the database: rejected, it changes nothing; carried
    out, it updates the row with the key, or creates it. *)
Definition prisma_liquidation_upsert (liquidation : AuctionApiSchema)
  : M W Liquidation.t :=
  fun s =>
    let '(rejection, w) := commit env (request_of liquidation) (world s) in
    match rejection with
    | Some e =>
        (Throw e, {| world := w; console := console s; table := table s;
                     invocations := invocations s |})
    | None =>
        let '(rows, written) :=
          Liquidation.upsert (where_of liquidation) (update_of liquidation)
            (create_of liquidation) (table s) in
        (Ok written, {| world := w; console := console s; table := rows;
                        invocations := invocations s |})
    end.

(** [liquidations.map(async (liquidation) => ...)]: one promise per record,
    with its index in the array. *)
Definition liquidationOperations (liquidations : list AuctionApiSchema)
  : list (nat * AuctionApiSchema) :=
  combine (seq 0 (length liquidations)) liquidations.

(** The upserts are all started before any is awaited, and each is a
    transaction of its own: the database takes them one at a time, in the order
    it chooses, until none is pending. *)
Fixpoint settle (fuel : nat) (pending : list (nat * AuctionApiSchema))
  : State W -> list settled * State W :=
  match fuel with
  | O => fun s => ([], s)
  | S fuel' => fun s =>
      let '(choice, w) := next_upsert env (length pending) (world s) in
      let i := (choice mod length pending)%nat in
      match nth_error pending i with
      | None => ([], s)
      | Some (index, liquidation) =>
          let '(outcome, s1) :=
            prisma_liquidation_upsert liquidation
              {| world := w; console := console s; table := table s;
                 invocations := invocations s |} in
          let '(later, s2) :=
            settle fuel' (firstn i pending ++ skipn (S i) pending)%list s1 in
          ((index, liquidation, outcome) :: later, s2)
      end
  end.

Definition record_invocation (liquidations : list AuctionApiSchema) : M W unit :=
  fun s =>
    (Ok tt, {| world := world s; console := console s; table := table s;
               invocations := (invocations s ++ [liquidations])%list |}).

(** [Promise.all(liquidationOperations)]: awaited by the caller, it is
    settled here once every upsert is. *)
Definition upsertLiquidations (liquidations : list AuctionApiSchema)
  : M W (list Liquidation.t) :=
  record_invocation liquidations ;;
  (fun s =>
     let '(outcomes, s') :=
       settle (length liquidations) (liquidationOperations liquidations) s in
     (Promise_all (length liquidations) outcomes, s')).

(** [prisma.liquidation.findMany()]: the rows of the table, unless the
    database rejects the read. *)
Definition getAllLiquidations : M W (list Liquidation.t) :=
  fun s =>
    let '(rejection, w) := find_many env (world s) in
    let s' := {| world := w; console := console s; table := table s;
                 invocations := invocations s |} in
    match rejection with
    | Some e => (Throw e, s')
    | None => (Ok (table s), s')
    end.

End Service.
(** ** src/app/api/auction/route.ts *)

(** The HTTP response of the handler. *)
Inductive Body : Type :=
| ResultBody (result : list AuctionApiSchema)
| ErrorBody (error details : string).

Record NextResponse : Type := { body : Body; http_status : Z }.

(** [a === b] on two possibly missing strings. *)
Definition strict_eq (a b : nullable string) : bool :=
  match a, b with
  | value x, value y => String.eqb x y
  | undefined, undefined => true
  | null, null => true
  | _, _ => false
  end.

Definition calculateDebt (position : PositionSchema) : string :=
  Number_toString
    (Number_mul
       (Number_div (borrowShares position) (totalBorrowShares (pool position)))
       (totalBorrowAssets (pool position))).

Section Route.
Context {W : Type} (env : Env W).

Definition checkLiquidatableStatus (position : PositionSchema) : M W bool :=
  try_catch
    (let parts := match id position with
                  | Some i => split "-" i
                  | None => []
                  end in
     let poolId := nth_error parts 0 in
     let tokenId := match nth_error parts 1 with
                    | Some segment => value segment
                    | None => undefined
                    end in
     token <- eval (BigInt tokenId) ;;
     call (unhealthyList env poolId token))
    (fun error =>
       console_error "Error checking liquidatable status:" error ;;
       ret false).

Definition fetchFloorPrice (oracleAddress : string) (tokenId : Z) : M W Number :=
  try_catch
    (price <- call (getPrice env oracleAddress tokenId) ;;
     ret (Number_of_BigInt price))
    (fun error =>
       console_error "Error fetching price:" error ;;
       ret (Number_of_Z 0)).

Definition fetchGraphQLPositions : M W (option (list PositionSchema)) :=
  try_catch
    (response <- call (fetch_graphql env) ;;
     if negb (ok response)
     then throw (Error ("GraphQL request failed with status "
                        ++ string_of_Z (status response)))
     else
       responseData <- eval (json response) ;;
       match data responseData with
       | value d => ret (positions d)
       | undefined =>
           throw (TypeError "Cannot read properties of undefined (reading 'positions')")
       | null =>
           throw (TypeError "Cannot read properties of null (reading 'positions')")
       end)
    (fun error =>
       console_error "Error fetching GraphQL positions:" error ;;
       throw error).

Definition fetchNFTData : M W NftBody :=
  try_catch
    (response <- call (fetch_nft env) ;;
     if negb (ok response)
     then throw (Error ("NFT data fetch failed with status "
                        ++ string_of_Z (status response)))
     else eval (json response))
    (fun error =>
       console_error "Error fetching NFT data:" error ;;
       throw error).

(** The body of the loop of [getAllLiquidatable] for one position: the
    record pushed on [result], if any. *)
Definition visit (nftData : NftBody) (position : PositionSchema)
  : M W (option AuctionApiSchema) :=
  isLiquidatableStatus <- checkLiquidatableStatus position ;;
  if isLiquidatableStatus then
    token <- eval (BigInt (tokenId position)) ;;
    price <- fetchFloorPrice (oracle (pool position)) token ;;
    owned <- match ownedNfts nftData with
             | value l => ret l
             | undefined =>
                 throw (TypeError "Cannot read properties of undefined (reading 'find')")
             | null =>
                 throw (TypeError "Cannot read properties of null (reading 'find')")
             end ;;
    let nftArteData :=
      List.find (fun nft => strict_eq (nft_tokenId nft) (tokenId position)) owned in
    ret (Some {| nftData := match nftArteData with
                            | Some nft => nft
                            | None => empty_object
                            end;
                 isLiquidatableStatus := isLiquidatableStatus;
                 position := position;
                 floorPrice := Number_toString price;
                 debt := calculateDebt position |})
  else ret None.

(** [for (const position of positions) { ... }], pushing on [result]. *)
Fixpoint for_positions (nftData : NftBody) (positions : list PositionSchema)
  (result : list AuctionApiSchema) : M W (list AuctionApiSchema) :=
  match positions with
  | [] => ret result
  | position :: rest =>
      pushed <- visit nftData position ;;
      for_positions nftData rest
        (match pushed with
         | Some record => (result ++ [record])%list
         | None => result
         end)
  end.

Definition getAllLiquidatable : M W (list AuctionApiSchema) :=
  try_catch
    (positions <- fetchGraphQLPositions ;;
     nftData <- fetchNFTData ;;
     match positions with
     | Some ps => for_positions nftData ps []
     | None => throw (TypeError "positions is not iterable")
     end)
    (fun error =>
       console_error "Error fetching liquidatable positions:" error ;;
       throw error).

Definition GET : M W NextResponse :=
  try_catch
    (result <- getAllLiquidatable ;;
     upsertLiquidations env result ;;
     ret {| body := ResultBody result; http_status := 200 |})
    (fun error =>
       console_error "Detailed error:" error ;;
       ret {| body := ErrorBody "Failed to fetch positions" (message_or_unknown error);
              http_status := 500 |}).

End Route.

(** ** Vocabulary of the properties *)

Definition initial_state {W : Type} (w : W) : State W :=
  {| world := w; console := []; table := []; invocations := [] |}.

(** What [checkLiquidatableStatus] returns for a position in a state. *)
Definition verdict {W : Type} (env : Env W) (position : PositionSchema) (s : State W)
  : completion bool :=
  fst (checkLiquidatableStatus env position s).

(** What it returns for each position of the loop, in the state in which the
    loop reaches that position. *)
Fixpoint verdicts {W : Type} (env : Env W) (nftData : NftBody)
  (positions : list PositionSchema) (s : State W) : list (completion bool) :=
  match positions with
  | [] => []
  | position :: rest =>
      verdict env position s :: verdicts env nftData rest (snd (visit env nftData position s))
  end.

(** The positions whose verdict is [true], in order. *)
Fixpoint liquidatable (positions : list PositionSchema) (vs : list (completion bool))
  : list PositionSchema :=
  match positions, vs with
  | position :: rest, v :: vs' =>
      match v with
      | Ok true => position :: liquidatable rest vs'
      | _ => liquidatable rest vs'
      end
  | _, _ => []
  end.

(** The positions whose verdict is [false]. *)
Fixpoint healthy (positions : list PositionSchema) (vs : list (completion bool))
  : list PositionSchema :=
  match positions, vs with
  | position :: rest, v :: vs' =>
      match v with
      | Ok false => position :: healthy rest vs'
      | _ => healthy rest vs'
      end
  | _, _ => []
  end.

(** [nft] is the first NFT of [owned], in list order, whose token id is the
    string [t]; the empty object when there is none. *)
Definition joined_on (t : string) (owned : list AlchemyNftSchema) (nft : AlchemyNftSchema)
  : Prop :=
  (exists before after,
      owned = (before ++ nft :: after)%list
      /\ nft_tokenId nft = value t
      /\ Forall (fun other => nft_tokenId other <> value t) before)
  \/ (Forall (fun other => nft_tokenId other <> value t) owned /\ nft = empty_object).

(** [record] is joined with the NFT data fetched: its position has a token
    id, and its NFT is the one [joined_on] describes. *)
Definition joined (nfts : NftBody) (record : AuctionApiSchema) : Prop :=
  exists t owned,
    tokenId (position record) = value t
    /\ ownedNfts nfts = value owned
    /\ joined_on t owned (nftData record).

(** The collateral contract address of a record: the address of the contract
    of its NFT, and the empty string when the NFT has none. *)
Definition collateral_address (record : AuctionApiSchema) : string :=
  match contract (nftData record) with
  | Some c => match address c with
              | Some a => a
              | None => ""
              end
  | None => ""
  end.

(** The token id of a record: that of its position, and the empty string
    when the position has none. *)
Definition token_of (record : AuctionApiSchema) : string :=
  match tokenId (position record) with
  | value t => t
  | undefined | null => ""
  end.

(** The key a record is stored under: (collateral address, token id). *)
Definition stored_under (record : AuctionApiSchema) : Liquidation.key :=
  {| Liquidation.k_addressIP := collateral_address record;
     Liquidation.k_tokenId := token_of record |}.

(** The database carries out every upsert. *)
Definition accepts_every_upsert {W : Type} (env : Env W) : Prop :=
  forall request w, fst (commit env request w) = None.

(** The records whose upsert was carried out, in the order in which the
    database took them. *)
Fixpoint carried_out (outcomes : list settled) : list AuctionApiSchema :=
  match outcomes with
  | [] => []
  | (_, liquidation, Ok _) :: rest => liquidation :: carried_out rest
  | (_, _, Throw _) :: rest => carried_out rest
  end.

(** What the outcome of a settled promise says: a row is the row of the
    record and the database accepted the upsert; an error is the rejection by
    the database. *)
Definition settled_well {W : Type} (env : Env W) (o : settled) : Prop :=
  match o with
  | (_, liquidation, Ok row) =>
      row = create_of liquidation
      /\ exists w, fst (commit env (request_of liquidation) w) = None
  | (_, liquidation, Throw e) =>
      exists w, fst (commit env (request_of liquidation) w) = Some e
  end.

(** The unique constraint of the table. *)
Definition unique_keys (rows : list Liquidation.t) : Prop :=
  NoDup (map Liquidation.key_of rows).

(** The rows stored under a key. *)
Definition rows_with (k : Liquidation.key) (rows : list Liquidation.t)
  : list Liquidation.t :=
  filter (fun r => Liquidation.key_eqb (Liquidation.key_of r) k) rows.

(** A computation that neither writes the table nor calls
    [upsertLiquidations]. *)
Definition read_only {W A : Type} (m : M W A) : Prop :=
  forall s r s', m s = (r, s') ->
    table s' = table s /\ invocations s' = invocations s.

(** The table after the upserts of the records of a list, in order. *)
Fixpoint persisted (liquidations : list AuctionApiSchema) (rows : list Liquidation.t)
  : list Liquidation.t :=
  match liquidations with
  | [] => rows
  | liquidation :: rest =>
      persisted rest
        (fst (Liquidation.upsert (where_of liquidation) (update_of liquidation)
                (create_of liquidation) rows))
  end.

(** The last record of a list that is stored under a key. *)
Fixpoint last_with (k : Liquidation.key) (liquidations : list AuctionApiSchema)
  : option AuctionApiSchema :=
  match liquidations with
  | [] => None
  | liquidation :: rest =>
      match last_with k rest with
      | Some later => Some later
      | None =>
          if Liquidation.key_eqb (where_of liquidation) k then Some liquidation else None
      end
  end.

(** *** Numbers and their decimal renderings *)






Definition digit_of (c : ascii) : option Z :=
  let n := Z.of_N (N_of_ascii c) in
  if (48 <=? n) && (n <=? 57) then Some (n - 48) else None.

(** Read digits from the front of [s]: the number read (continuing [acc]),
    how many digits were read (added to [count]), and the rest. *)
Fixpoint read_digits (s : string) (acc count : Z) : Z * Z * string :=
  match s with
  | EmptyString => (acc, count, EmptyString)
  | String c rest =>
      match digit_of c with
      | Some d => read_digits rest (10 * acc + d) (count + 1)
      | None => (acc, count, s)
      end
  end.

(** The exponent part of a numeral: nothing, or [e], a sign and digits. *)
Definition read_exponent (s : string) : option Z :=
  match s with
  | EmptyString => Some 0
  | String c (String sg rest) =>
      let '(x, count, rest') := read_digits rest 0 0 in
      if Ascii.eqb c "e" && (0 <? count) && String.eqb rest' "" then
        if Ascii.eqb sg "+" then Some x
        else if Ascii.eqb sg "-" then Some (- x)
        else None
      else None
  | _ => None
  end.

(** The rational number an unsigned decimal numeral denotes: digits, then
    possibly a point and digits, then possibly an exponent.  Nothing else is
    a numeral: no sign, no space, no grouping separator. *)
Definition decimal_value (s : string) : option Q :=
  let '(i, ni, rest) := read_digits s 0 0 in
  if ni =? 0 then None
  else
    match rest with
    | String c rest1 =>
        if Ascii.eqb c "." then
          let '(f, nf, rest2) := read_digits rest1 i 0 in
          if nf =? 0 then None
          else
            match read_exponent rest2 with
            | Some x => Some (inject_Z f * pow10 (x - nf))%Q
            | None => None
            end
        else
          match read_exponent rest with
          | Some x => Some (inject_Z i * pow10 x)%Q
          | None => None
          end
    | EmptyString => Some (inject_Z i)
    end.




(** ** Scenarios *)

Module Scenario.

Definition the_pool : Pool :=
  {| oracle := "0x0rac1e";
     loanAddress := Some "0x10an";
     totalBorrowShares := Number_of_Z 100;
     totalBorrowAssets := Number_of_Z 1000 |}.

Definition the_position : PositionSchema :=
  {| id := Some "0xabc-7";
     account := Some {| account_id := Some "0xacc" |};
     pool := the_pool;
     tokenId := value "7";
     bidder := None;
     borrowShares := Number_of_Z 50 |}.

Definition no_separator : PositionSchema :=
  {| id := Some "0xabc7";
     account := None;
     pool := the_pool;
     tokenId := value "7";
     bidder := None;
     borrowShares := Number_of_Z 50 |}.

Definition the_nft : AlchemyNftSchema :=
  {| contract := Some {| address := Some "0xn4t"; name := Some "Arte"; symbol := Some "ART" |};
     nft_tokenId := value "7" |}.

Definition other_nft : AlchemyNftSchema :=
  {| contract := Some {| address := Some "0xn4t"; name := Some "Arte"; symbol := Some "ART" |};
     nft_tokenId := value "8" |}.

Definition ok_response {A : Type} (a : A) : Response A :=
  {| ok := true; status := 200; json := Ok a |}.

Definition unavailable {A : Type} : Response A :=
  {| ok := false; status := 503; json := Throw (SyntaxError "Unexpected token") |}.

(** Everything answers: one position, liquidatable, priced 250. *)
Definition healthy_world : Env unit :=
  {| fetch_graphql := fun w =>
       (Ok (ok_response {| data := value {| positions := Some [the_position] |} |}), w);
     fetch_nft := fun w =>
       (Ok (ok_response {| ownedNfts := value [other_nft; the_nft] |}), w);
     unhealthyList := fun _ _ w => (Ok true, w);
     getPrice := fun _ _ w => (Ok 250, w);
     next_upsert := fun _ w => (0%nat, w);
     commit := fun _ w => (None, w);
     find_many := fun w => (None, w) |}.

(** The indexer answers 503. *)
Definition indexer_down : Env unit :=
  {| fetch_graphql := fun w => (Ok unavailable, w);
     fetch_nft := fun w =>
       (Ok (ok_response {| ownedNfts := value [other_nft; the_nft] |}), w);
     unhealthyList := fun _ _ w => (Ok true, w);
     getPrice := fun _ _ w => (Ok 250, w);
     next_upsert := fun _ w => (0%nat, w);
     commit := fun _ w => (None, w);
     find_many := fun w => (None, w) |}.

(** The chain endpoint rejects every read. *)
Definition chain_down : Env unit :=
  {| fetch_graphql := fun w =>
       (Ok (ok_response {| data := value {| positions := Some [the_position] |} |}), w);
     fetch_nft := fun w =>
       (Ok (ok_response {| ownedNfts := value [other_nft; the_nft] |}), w);
     unhealthyList := fun _ _ w => (Throw (Error "HTTP request failed."), w);
     getPrice := fun _ _ w => (Throw (Error "HTTP request failed."), w);
     next_upsert := fun _ w => (0%nat, w);
     commit := fun _ w => (None, w);
     find_many := fun w => (None, w) |}.

(** Two positions, of which the chain reports the one with token 7
    liquidatable and the other one healthy. *)
Definition healthy_position : PositionSchema :=
  {| id := Some "0xabc-8";
     account := Some {| account_id := Some "0xacc" |};
     pool := the_pool;
     tokenId := value "8";
     bidder := None;
     borrowShares := Number_of_Z 50 |}.

Definition mixed_world : Env unit :=
  {| fetch_graphql := fun w =>
       (Ok (ok_response
              {| data := value {| positions := Some [healthy_position; the_position] |} |}), w);
     fetch_nft := fun w =>
       (Ok (ok_response {| ownedNfts := value [other_nft; the_nft] |}), w);
     unhealthyList := fun _ token w => (Ok (token =? 7), w);
     getPrice := fun _ _ w => (Ok 250, w);
     next_upsert := fun _ w => (0%nat, w);
     commit := fun _ w => (None, w);
     find_many := fun w => (None, w) |}.

(** The record expected for [the_position]. *)
Definition the_record : AuctionApiSchema :=
  {| nftData := the_nft;
     isLiquidatableStatus := true;
     position := the_position;
     floorPrice := "250";
     debt := "500" |}.



(** Two result records without NFT metadata and with the same token id. *)
Definition orphan (price : string) : AuctionApiSchema :=
  {| nftData := empty_object;
     isLiquidatableStatus := true;
     position := the_position;
     floorPrice := price;
     debt := "500" |}.

(** A position whose id names token 7 while its [tokenId] field is ["9"]. *)
Definition mismatched_position : PositionSchema :=
  {| id := Some "0xabc-7";
     account := None;
     pool := the_pool;
     tokenId := value "9";
     bidder := None;
     borrowShares := Number_of_Z 50 |}.

(** A position without a [tokenId] field. *)
Definition tokenless_position : PositionSchema :=
  {| id := Some "0xabc-7";
     account := None;
     pool := the_pool;
     tokenId := undefined;
     bidder := None;
     borrowShares := Number_of_Z 50 |}.

(** A position of a pool in which nothing is borrowed. *)
Definition idle_position : PositionSchema :=
  {| id := Some "0xabc-7";
     account := None;
     pool := {| oracle := "0x0rac1e"; loanAddress := None;
                totalBorrowShares := Number_of_Z 0;
                totalBorrowAssets := Number_of_Z 1000 |};
     tokenId := value "7";
     bidder := None;
     borrowShares := Number_of_Z 50 |}.

(** The chain reports token 7 liquidatable and prices token [t] at [100 t]. *)
Definition pricing_world : Env unit :=
  {| fetch_graphql := fun w =>
       (Ok (ok_response {| data := value {| positions := Some [mismatched_position] |} |}), w);
     fetch_nft := fun w =>
       (Ok (ok_response {| ownedNfts := value [other_nft; the_nft] |}), w);
     unhealthyList := fun _ token w => (Ok (token =? 7), w);
     getPrice := fun _ token w => (Ok (100 * token), w);
     next_upsert := fun _ w => (0%nat, w);
     commit := fun _ w => (None, w);
     find_many := fun w => (None, w) |}.

(** The NFT proxy answers 503. *)
Definition proxy_down : Env unit :=
  {| fetch_graphql := fun w =>
       (Ok (ok_response {| data := value {| positions := Some [the_position] |} |}), w);
     fetch_nft := fun w => (Ok unavailable, w);
     unhealthyList := fun _ _ w => (Ok true, w);
     getPrice := fun _ _ w => (Ok 250, w);
     next_upsert := fun _ w => (0%nat, w);
     commit := fun _ w => (None, w);
     find_many := fun w => (None, w) |}.

(** The indexer answers 200 with a body that has no [data]. *)
Definition indexer_without_data : Env unit :=
  {| fetch_graphql := fun w => (Ok (ok_response {| data := undefined |}), w);
     fetch_nft := fun w =>
       (Ok (ok_response {| ownedNfts := value [other_nft; the_nft] |}), w);
     unhealthyList := fun _ _ w => (Ok true, w);
     getPrice := fun _ _ w => (Ok 250, w);
     next_upsert := fun _ w => (0%nat, w);
     commit := fun _ w => (None, w);
     find_many := fun w => (None, w) |}.

(** The indexer answers 200 with a [data] that has no [positions]. *)
Definition indexer_without_positions : Env unit :=
  {| fetch_graphql := fun w =>
       (Ok (ok_response {| data := value {| positions := None |} |}), w);
     fetch_nft := fun w =>
       (Ok (ok_response {| ownedNfts := value [other_nft; the_nft] |}), w);
     unhealthyList := fun _ _ w => (Ok true, w);
     getPrice := fun _ _ w => (Ok 250, w);
     next_upsert := fun _ w => (0%nat, w);
     commit := fun _ w => (None, w);
     find_many := fun w => (None, w) |}.

(** The liquidatability read answers, the oracle read is rejected. *)
Definition oracle_down : Env unit :=
  {| fetch_graphql := fun w =>
       (Ok (ok_response {| data := value {| positions := Some [the_position] |} |}), w);
     fetch_nft := fun w =>
       (Ok (ok_response {| ownedNfts := value [other_nft; the_nft] |}), w);
     unhealthyList := fun _ _ w => (Ok true, w);
     getPrice := fun _ _ w => (Throw (Error "HTTP request failed."), w);
     next_upsert := fun _ w => (0%nat, w);
     commit := fun _ w => (None, w);
     find_many := fun w => (None, w) |}.

(** The indexer has no position, and the proxy sends no [ownedNfts]. *)
Definition empty_indexer : Env unit :=
  {| fetch_graphql := fun w =>
       (Ok (ok_response {| data := value {| positions := Some [] |} |}), w);
     fetch_nft := fun w => (Ok (ok_response {| ownedNfts := undefined |}), w);
     unhealthyList := fun _ _ w => (Ok true, w);
     getPrice := fun _ _ w => (Ok 250, w);
     next_upsert := fun _ w => (0%nat, w);
     commit := fun _ w => (None, w);
     find_many := fun w => (None, w) |}.

(** The record of a position with token 8, joined with [other_nft]. *)
Definition other_record : AuctionApiSchema :=
  {| nftData := other_nft;
     isLiquidatableStatus := true;
     position := healthy_position;
     floorPrice := "100";
     debt := "500" |}.

(** The database rejects every upsert. *)
Definition database_down : Env unit :=
  {| fetch_graphql := fun w =>
       (Ok (ok_response {| data := value {| positions := Some [the_position] |} |}), w);
     fetch_nft := fun w =>
       (Ok (ok_response {| ownedNfts := value [other_nft; the_nft] |}), w);
     unhealthyList := fun _ _ w => (Ok true, w);
     getPrice := fun _ _ w => (Ok 250, w);
     next_upsert := fun _ w => (0%nat, w);
     commit := fun _ w => (Some (Error "Can't reach database server"), w);
     find_many := fun w => (None, w) |}.

(** The database takes the upserts started together last first. *)
Definition last_first : Env unit :=
  {| fetch_graphql := fun w =>
       (Ok (ok_response {| data := value {| positions := Some [the_position] |} |}), w);
     fetch_nft := fun w =>
       (Ok (ok_response {| ownedNfts := value [other_nft; the_nft] |}), w);
     unhealthyList := fun _ _ w => (Ok true, w);
     getPrice := fun _ _ w => (Ok 250, w);
     next_upsert := fun n w => ((n - 1)%nat, w);
     commit := fun _ w => (None, w);
     find_many := fun w => (None, w) |}.





End Scenario.


(** * Properties *)

(** ** Numbers: rounding and rendering *)

(** *** Powers of two and of ten *)




Lemma pow_0 (b : Z) : (pow b 0 == 1)%Q.
Proof. reflexivity. Qed.







(** *** Rounding to the nearest Number *)

Lemma inject_Z_lt_inv (a b : Z) : (inject_Z a < inject_Z b)%Q -> a < b.
Proof. intros H. rewrite Zlt_Qlt. exact H. Qed.












(** *** Digit strings and numerals *)






























(** *** The digits of Number::toString *)



















(** *** Reading a rendering back *)








(** X15: the division of [calculateDebt] is unguarded.  For a pool whose
    [totalBorrowShares] is zero the debt is never a decimal: it is ["NaN"],
    ["Infinity"] or ["-Infinity"], whatever the other two amounts are. *)
Theorem calculateDebt_of_a_pool_without_borrow_shares
  (position : PositionSchema) (sign : bool) :
  totalBorrowShares (pool position) = S754_zero sign ->
  calculateDebt position = "NaN"
  \/ calculateDebt position = "Infinity"
  \/ calculateDebt position = "-Infinity".
Proof.
  intros H. unfold calculateDebt, Number_mul, Number_div. rewrite H.
  destruct (borrowShares position) as [sa | sa | | sa ma ea];
    destruct (totalBorrowAssets (pool position)) as [sb | sb | | sb mb eb];
    simpl; auto;
    destruct (xorb _ _); auto.
Qed.

(** ** Properties of the runtime helpers *)

Ltac unfold_js :=
  unfold bind, try_catch, call, eval, ret, throw, console_error in *.

Lemma split_without_separator (sep : ascii) (s : string) :
  contains sep s = false -> split sep s = [s].
Proof.
  induction s as [|c rest IH]; simpl; intros H.
  - reflexivity.
  - apply orb_false_iff in H. destruct H as [Hc Hrest].
    rewrite Hc, (IH Hrest). reflexivity.
Qed.

Lemma split_nonempty (sep : ascii) (s : string) : split sep s <> [].
Proof.
  destruct s as [|c rest]; simpl; [discriminate|].
  destruct (Ascii.eqb c sep); [discriminate|].
  destruct (split sep rest); discriminate.
Qed.

(** ** The liquidatability checker *)

Section Checker.
Context {W : Type} (env : Env W).

(** The checker returns a boolean in every state: nothing it does inside
    its [try] block reaches the caller. *)
Lemma checkLiquidatableStatus_total (position : PositionSchema) (s : State W) :
  exists b s', checkLiquidatableStatus env position s = (Ok b, s').
Proof.
  unfold checkLiquidatableStatus. unfold_js.
  destruct (BigInt _) as [token|e]; simpl.
  - destruct (unhealthyList env _ token (world s)) as [[b|e] w]; simpl; eauto.
  - eauto.
Qed.

Lemma verdict_total (position : PositionSchema) (s : State W) :
  exists b, verdict env position s = Ok b.
Proof.
  unfold verdict.
  destruct (checkLiquidatableStatus_total position s) as (b & s' & E).
  rewrite E. exists b. reflexivity.
Qed.

(** C3: when the contract read behind [checkLiquidatableStatus] throws,
    whatever the error, the checker logs it and returns [false]; the error
    does not reach the caller. *)
Theorem checkLiquidatableStatus_swallows_read_error
  (position : PositionSchema) (s : State W)
  (i poolId tokenId : string) (rest : list string) (token : Z) (e : exn) (w' : W) :
  id position = Some i ->
  split "-" i = poolId :: tokenId :: rest ->
  StringToBigInt tokenId = Some token ->
  unhealthyList env (Some poolId) token (world s) = (Throw e, w') ->
  checkLiquidatableStatus env position s =
    (Ok false,
     {| world := w';
        console := (console s ++ [("Error checking liquidatable status:", e)])%list;
        table := table s;
        invocations := invocations s |}).
Proof.
  intros Hid Hsplit Hbig Hread.
  unfold checkLiquidatableStatus. unfold_js.
  rewrite Hid, Hsplit. simpl. unfold BigInt. rewrite Hbig. simpl.
  rewrite Hread. reflexivity.
Qed.

(** C9: a position whose id is missing, or has no ['-'] in it, has no second
    segment; [BigInt(undefined)] throws a TypeError inside the [try] block,
    the catch branch logs it and the checker returns [false], without any
    contract read. *)
Theorem checkLiquidatableStatus_without_token_segment
  (position : PositionSchema) (s : State W) :
  (id position = None
   \/ exists i, id position = Some i /\ contains "-" i = false) ->
  checkLiquidatableStatus env position s =
    (Ok false,
     {| world := world s;
        console := (console s ++ [("Error checking liquidatable status:",
                                   TypeError "Cannot convert undefined to a BigInt")])%list;
        table := table s;
        invocations := invocations s |}).
Proof.
  intros [Hid | (i & Hid & Hno)];
    unfold checkLiquidatableStatus; unfold_js; rewrite Hid.
  - reflexivity.
  - rewrite (split_without_separator _ _ Hno). reflexivity.
Qed.

(** C4: when the contract read behind [fetchFloorPrice] throws, the reader
    logs the error and returns the Number [0]; the error does not reach the
    caller. *)
Theorem fetchFloorPrice_swallows_read_error
  (oracleAddress : string) (tokenId : Z) (s : State W) (e : exn) (w' : W) :
  getPrice env oracleAddress tokenId (world s) = (Throw e, w') ->
  fetchFloorPrice env oracleAddress tokenId s =
    (Ok (Number_of_Z 0),
     {| world := w';
        console := (console s ++ [("Error fetching price:", e)])%list;
        table := table s;
        invocations := invocations s |}).
Proof.
  intros Hread. unfold fetchFloorPrice. unfold_js.
  rewrite Hread. reflexivity.
Qed.

(** The price reader returns a Number in every state. *)
Lemma fetchFloorPrice_total (oracleAddress : string) (tokenId : Z) (s : State W) :
  exists price s', fetchFloorPrice env oracleAddress tokenId s = (Ok price, s')
                   /\ table s' = table s /\ invocations s' = invocations s.
Proof.
  unfold fetchFloorPrice. unfold_js.
  destruct (getPrice env oracleAddress tokenId (world s)) as [[p|e] w]; simpl; eauto.
Qed.

End Checker.

(** ** Frame: what a computation leaves alone *)

Section Frame.
Context {W : Type}.

Lemma read_only_ret {A} (a : A) : read_only (@ret W A a).
Proof. intros s r s' E. inversion E. auto. Qed.

Lemma read_only_throw {A} (e : exn) : read_only (@throw W A e).
Proof. intros s r s' E. inversion E. auto. Qed.

Lemma read_only_eval {A} (c : completion A) : read_only (@eval W A c).
Proof. intros s r s' E. inversion E. auto. Qed.

Lemma read_only_call {A} (f : W -> completion A * W) : read_only (call f).
Proof.
  intros s r s' E. unfold call in E.
  destruct (f (world s)) as [r0 w]. inversion E. auto.
Qed.

Lemma read_only_console_error (label : string) (e : exn) :
  read_only (@console_error W label e).
Proof. intros s r s' E. inversion E. auto. Qed.

Lemma read_only_bind {A B} (m : M W A) (k : A -> M W B) :
  read_only m -> (forall a, read_only (k a)) -> read_only (bind m k).
Proof.
  intros Hm Hk s r s' E. unfold bind in E.
  destruct (m s) as [[a|e] s1] eqn:Em.
  - destruct (Hm _ _ _ Em) as [T I]. destruct (Hk a _ _ _ E) as [T' I'].
    split; congruence.
  - inversion E; subst. exact (Hm _ _ _ Em).
Qed.

Lemma read_only_try_catch {A} (m : M W A) (h : exn -> M W A) :
  read_only m -> (forall e, read_only (h e)) -> read_only (try_catch m h).
Proof.
  intros Hm Hh s r s' E. unfold try_catch in E.
  destruct (m s) as [[a|e] s1] eqn:Em.
  - inversion E; subst. exact (Hm _ _ _ Em).
  - destruct (Hm _ _ _ Em) as [T I]. destruct (Hh e _ _ _ E) as [T' I'].
    split; congruence.
Qed.

End Frame.

Create HintDb frame.

#[local] Hint Resolve read_only_ret read_only_throw read_only_eval read_only_call
  read_only_console_error : frame.

Ltac frame :=
  repeat first
    [ apply read_only_bind; [|intros ?]
    | apply read_only_try_catch; [|intros ?]
    | solve [auto with frame]
    | match goal with |- read_only (if ?b then _ else _) => destruct b end
    | match goal with |- read_only (match ?x with _ => _ end) => destruct x end ].

(** ** The aggregator *)

Lemma strict_eq_value (a : nullable string) (t : string) :
  strict_eq a (value t) = true <-> a = value t.
Proof.
  destruct a as [| |x]; simpl.
  - split; discriminate.
  - split; discriminate.
  - rewrite String.eqb_eq. split; congruence.
Qed.

(** [find] with the join condition returns the first NFT of the list with the
    token id, and nothing when no NFT has it. *)
Lemma find_joined_on (t : string) (owned : list AlchemyNftSchema) :
  joined_on t owned
    (match List.find (fun nft => strict_eq (nft_tokenId nft) (value t)) owned with
     | Some nft => nft
     | None => empty_object
     end).
Proof.
  induction owned as [|n rest IH]; simpl.
  - right. split; [constructor | reflexivity].
  - destruct (strict_eq (nft_tokenId n) (value t)) eqn:E.
    + left. exists [], rest. repeat split.
      * now apply strict_eq_value.
      * constructor.
    + assert (Hn : nft_tokenId n <> value t).
      { intros H. apply strict_eq_value in H. congruence. }
      destruct IH as [(before & after & Ho & Ht & Hb) | [Hall He]].
      * left. exists (n :: before), after. repeat split.
        -- simpl. f_equal. exact Ho.
        -- exact Ht.
        -- constructor; assumption.
      * right. split; [constructor; assumption | exact He].
Qed.

Section Aggregator.
Context {W : Type} (env : Env W).

Lemma read_only_checkLiquidatableStatus (position : PositionSchema) :
  read_only (checkLiquidatableStatus env position).
Proof. unfold checkLiquidatableStatus. frame. Qed.

Lemma read_only_fetchFloorPrice (oracleAddress : string) (tokenId : Z) :
  read_only (fetchFloorPrice env oracleAddress tokenId).
Proof. unfold fetchFloorPrice. frame. Qed.

Lemma read_only_fetchGraphQLPositions : read_only (fetchGraphQLPositions env).
Proof. unfold fetchGraphQLPositions. frame. Qed.

Lemma read_only_fetchNFTData : read_only (fetchNFTData env).
Proof. unfold fetchNFTData. frame. Qed.

Lemma read_only_visit (nftData : NftBody) (position : PositionSchema) :
  read_only (visit env nftData position).
Proof.
  unfold visit. apply read_only_bind.
  - apply read_only_checkLiquidatableStatus.
  - intros [|]; [|frame].
    apply read_only_bind; [frame|intros token].
    apply read_only_bind; [apply read_only_fetchFloorPrice|intros price].
    frame.
Qed.

Lemma read_only_for_positions (nftData : NftBody) (positions : list PositionSchema) :
  forall result, read_only (for_positions env nftData positions result).
Proof.
  induction positions as [|p rest IH]; intros result; simpl.
  - frame.
  - apply read_only_bind; [apply read_only_visit|intros pushed]. apply IH.
Qed.

Lemma read_only_getAllLiquidatable : read_only (getAllLiquidatable env).
Proof.
  unfold getAllLiquidatable.
  apply read_only_try_catch; [|intros e; frame].
  apply read_only_bind; [apply read_only_fetchGraphQLPositions|intros ps].
  apply read_only_bind; [apply read_only_fetchNFTData|intros nfts].
  destruct ps; [apply read_only_for_positions|frame].
Qed.

(** What one turn of the loop pushes: nothing when the checker returned
    [false]; when it returned [true], a record for the position, flagged,
    with the joined NFT and the computed debt. *)
Lemma visit_pushes (nfts : NftBody) (p : PositionSchema)
  (s s' : State W) (pushed : option AuctionApiSchema) :
  visit env nfts p s = (Ok pushed, s') ->
  (pushed = None /\ verdict env p s = Ok false)
  \/ (exists record t owned,
         pushed = Some record
         /\ verdict env p s = Ok true
         /\ position record = p
         /\ isLiquidatableStatus record = true
         /\ debt record = calculateDebt p
         /\ tokenId p = value t
         /\ ownedNfts nfts = value owned
         /\ joined_on t owned (nftData record)).
Proof.
  unfold visit, verdict. unfold bind at 1.
  destruct (checkLiquidatableStatus env p s) as [[b|e] s1]; [|discriminate].
  destruct b; simpl.
  - unfold bind at 1. unfold eval at 1.
    destruct (tokenId p) as [| |t] eqn:Et; [discriminate|discriminate|].
    destruct (BigInt (value t)) as [token|e]; [|discriminate].
    unfold bind at 1.
    destruct (fetchFloorPrice env (oracle (pool p)) token s1) as [[price|e] s2];
      [|discriminate].
    destruct (ownedNfts nfts) as [| |owned] eqn:Eo; unfold_js;
      [discriminate|discriminate|].
    intros E. inversion E; subst. right.
    exists {| nftData := match List.find (fun nft => strict_eq (nft_tokenId nft) (value t)) owned with
                         | Some nft => nft
                         | None => empty_object
                         end;
              isLiquidatableStatus := true;
              position := p;
              floorPrice := Number_toString price;
              debt := calculateDebt p |}, t, owned.
    repeat split. apply find_joined_on.
  - unfold ret. intros E. inversion E; subst. left. split; reflexivity.
Qed.

Lemma verdicts_length (nfts : NftBody) (ps : list PositionSchema) :
  forall s, length (verdicts env nfts ps s) = length ps.
Proof.
  induction ps as [|p rest IH]; intros s; simpl; [reflexivity|].
  now rewrite IH.
Qed.

Lemma verdicts_boolean (nfts : NftBody) (ps : list PositionSchema) :
  forall s, Forall (fun v => exists b, v = Ok b) (verdicts env nfts ps s).
Proof.
  induction ps as [|p rest IH]; intros s; simpl; constructor.
  - apply verdict_total.
  - apply IH.
Qed.

(** Each position is either kept or left out. *)
Lemma liquidatable_or_healthy (ps : list PositionSchema) :
  forall vs : list (completion bool),
    length vs = length ps ->
    Forall (fun v => exists b, v = Ok b) vs ->
    (length (liquidatable ps vs) + length (healthy ps vs))%nat = length ps.
Proof.
  induction ps as [|p rest IH]; intros vs Hlen Hall.
  - reflexivity.
  - destruct vs as [|v vs']; [discriminate|].
    inversion Hall as [|? ? (b & Hb) Hall']; subst.
    injection Hlen as Hlen. specialize (IH vs' Hlen Hall').
    destruct b; simpl; lia.
Qed.

(** The loop appends, for the positions the checker reported liquidatable
    and for those only, one record each, in order. *)
Lemma for_positions_spec (nfts : NftBody) (ps : list PositionSchema) :
  forall (acc : list AuctionApiSchema) (s s' : State W) (result : list AuctionApiSchema),
    for_positions env nfts ps acc s = (Ok result, s') ->
    exists added,
      result = (acc ++ added)%list
      /\ map position added = liquidatable ps (verdicts env nfts ps s)
      /\ Forall (fun record =>
                   isLiquidatableStatus record = true
                   /\ debt record = calculateDebt (position record)
                   /\ joined nfts record) added.
Proof.
  induction ps as [|p rest IH]; intros acc s s' result H; simpl in H.
  - inversion H; subst. exists []. rewrite app_nil_r. repeat split. constructor.
  - unfold bind at 1 in H.
    destruct (visit env nfts p s) as [[pushed|e] s1] eqn:Ev; [|discriminate].
    apply IH in H. destruct H as (added & Hres & Hmap & Hall).
    simpl verdicts. rewrite Ev. simpl snd.
    destruct (visit_pushes _ _ _ _ _ Ev)
      as [[Hp Hv] | (record & t & owned & Hp & Hv & Hpos & Hliq & Hdebt & Ht & Ho & Hj)];
      subst pushed; rewrite Hv; simpl.
    + exists added. auto.
    + exists (record :: added). rewrite <- app_assoc in Hres. simpl in Hres.
      repeat split.
      * exact Hres.
      * simpl. now rewrite Hpos, Hmap.
      * constructor; [|exact Hall].
        repeat split; [exact Hliq | now rewrite Hpos |].
        exists t, owned. rewrite Hpos. auto.
Qed.

(** The aggregator returns a list only when both fetches succeeded and the
    loop ran to its end. *)
Lemma getAllLiquidatable_returns (s s1 : State W) (result : list AuctionApiSchema) :
  getAllLiquidatable env s = (Ok result, s1) ->
  exists ps nfts sa s0,
    fetchGraphQLPositions env s = (Ok (Some ps), sa)
    /\ fetchNFTData env sa = (Ok nfts, s0)
    /\ for_positions env nfts ps [] s0 = (Ok result, s1).
Proof.
  unfold getAllLiquidatable. unfold try_catch at 1. unfold bind at 1.
  destruct (fetchGraphQLPositions env s) as [[ps|e] sa] eqn:Ep.
  - unfold bind at 1.
    destruct (fetchNFTData env sa) as [[nfts|e] s0] eqn:En.
    + destruct ps as [ps|].
      * destruct (for_positions env nfts ps [] s0) as [[res|e] s2] eqn:E.
        -- intros H. inversion H; subst. exists ps, nfts, sa, s0. auto.
        -- unfold_js. discriminate.
      * unfold_js. discriminate.
    + unfold_js. discriminate.
  - unfold_js. discriminate.
Qed.

End Aggregator.

(** ** The table and its unique key *)

Module LiquidationFacts.
Import Liquidation.

Lemma key_eqb_eq (a b : key) : key_eqb a b = true <-> a = b.
Proof.
  destruct a as [a1 a2], b as [b1 b2]. unfold key_eqb. simpl.
  rewrite andb_true_iff, !String.eqb_eq. split.
  - intros [-> ->]. reflexivity.
  - intros E. inversion E. auto.
Qed.

Lemma key_eqb_refl (a : key) : key_eqb a a = true.
Proof. now apply key_eqb_eq. Qed.

Lemma key_eqb_neq (a b : key) : key_eqb a b = false <-> a <> b.
Proof.
  rewrite <- key_eqb_eq. destruct (key_eqb a b); split; congruence.
Qed.

Lemma key_of_apply_update (u : update_data) (r : t) :
  key_of (apply_update u r) = key_of r.
Proof. reflexivity. Qed.

Lemma find_unique_Some (k : key) (rows : list t) (r : t) :
  find_unique k rows = Some r -> key_of r = k /\ In k (map key_of rows).
Proof.
  unfold find_unique. intros H. apply find_some in H. destruct H as [Hin Hk].
  apply key_eqb_eq in Hk. split; [exact Hk|].
  rewrite <- Hk. now apply in_map.
Qed.

Lemma find_unique_absent (k : key) (rows : list t) :
  ~ In k (map key_of rows) -> find_unique k rows = None.
Proof.
  intros H. destruct (find_unique k rows) as [r|] eqn:E; [|reflexivity].
  apply find_unique_Some in E. tauto.
Qed.

Lemma find_unique_present (k : key) (rows : list t) :
  In k (map key_of rows) -> exists r, find_unique k rows = Some r.
Proof.
  unfold find_unique. induction rows as [|r rest IH]; simpl; [tauto|].
  intros [H|H].
  - rewrite H, key_eqb_refl. eauto.
  - destruct (key_eqb (key_of r) k); eauto.
Qed.

Lemma rows_with_absent (k : key) (rows : list t) :
  ~ In k (map key_of rows) -> filter (fun r => key_eqb (key_of r) k) rows = [].
Proof.
  induction rows as [|r rest IH]; simpl; [reflexivity|]. intros H.
  destruct (key_eqb (key_of r) k) eqn:E.
  - apply key_eqb_eq in E. tauto.
  - apply IH. tauto.
Qed.

(** Under the unique constraint the row [find_unique] returns is the only one
    with the key. *)
Lemma rows_with_unique (k : key) (rows : list t) (r : t) :
  NoDup (map key_of rows) ->
  find_unique k rows = Some r ->
  filter (fun r => key_eqb (key_of r) k) rows = [r].
Proof.
  unfold find_unique.
  induction rows as [|r0 rest IH]; simpl; [discriminate|].
  intros Hnd Hfind. inversion Hnd as [|? ? Hnotin Hnd']; subst.
  destruct (key_eqb (key_of r0) k) eqn:E.
  - inversion Hfind; subst. apply key_eqb_eq in E. subst k.
    now rewrite (rows_with_absent _ _ Hnotin).
  - now apply IH.
Qed.

(** The keys of the table after an upsert: unchanged when the key is there,
    one more at the end when it is not. *)
Lemma upsert_keys (k : key) (u : update_data) (c : t) (rows : list t) :
  key_of c = k ->
  map key_of (fst (upsert k u c rows)) =
    if existsb (fun r => key_eqb (key_of r) k) rows
    then map key_of rows
    else (map key_of rows ++ [k])%list.
Proof.
  intros Hc. induction rows as [|r rest IH]; simpl.
  - now rewrite Hc.
  - destruct (key_eqb (key_of r) k) eqn:E; simpl.
    + reflexivity.
    + destruct (upsert k u c rest) as [rest' w]. simpl in *.
      rewrite IH. now destruct (existsb _ rest).
Qed.

Lemma existsb_key (k : key) (rows : list t) :
  existsb (fun r => key_eqb (key_of r) k) rows = true <-> In k (map key_of rows).
Proof.
  rewrite existsb_exists, in_map_iff. split.
  - intros (r & Hin & E). apply key_eqb_eq in E. eauto.
  - intros (r & E & Hin). exists r. split; [exact Hin|]. now apply key_eqb_eq.
Qed.

Lemma upsert_keeps_unique (k : key) (u : update_data) (c : t) (rows : list t) :
  key_of c = k ->
  NoDup (map key_of rows) ->
  NoDup (map key_of (fst (upsert k u c rows))).
Proof.
  intros Hc Hnd. rewrite (upsert_keys _ _ _ _ Hc).
  destruct (existsb _ rows) eqn:E; [exact Hnd|].
  assert (Hnotin : ~ In k (map key_of rows)).
  { intros H. apply existsb_key in H. congruence. }
  apply NoDup_app; [exact Hnd | repeat constructor; simpl; tauto |].
  intros a Ha [<-|[]]. tauto.
Qed.

(** A lookup after an upsert: the key written holds the row written, the
    other keys hold what they held. *)
Lemma find_unique_upsert (k k' : key) (u : update_data) (c : t) (rows : list t) :
  key_of c = k ->
  find_unique k' (fst (upsert k u c rows)) =
    if key_eqb k k' then Some (snd (upsert k u c rows)) else find_unique k' rows.
Proof.
  intros Hc. unfold find_unique. induction rows as [|r rest IH]; simpl.
  - rewrite Hc. now destruct (key_eqb k k').
  - destruct (key_eqb (key_of r) k) eqn:E; simpl.
    + apply key_eqb_eq in E. rewrite key_of_apply_update, E.
      now destruct (key_eqb k k').
    + destruct (upsert k u c rest) as [rest' w]. simpl in *.
      destruct (key_eqb (key_of r) k') eqn:E'.
      * apply key_eqb_eq in E'. subst k'.
        apply key_eqb_neq in E.
        assert (En : key_eqb k (key_of r) = false) by (apply key_eqb_neq; congruence).
        now rewrite En.
      * exact IH.
Qed.

End LiquidationFacts.

(** ** Persistence *)

Section Persistence.
Import Liquidation LiquidationFacts.

Lemma key_of_create_of (l : AuctionApiSchema) : key_of (create_of l) = where_of l.
Proof. reflexivity. Qed.

(** Updated or created, the row written for a record holds the values of the
    record: the update leaves the two key columns alone, and they are those
    of the [where] argument. *)
Lemma upsert_writes_create_of (l : AuctionApiSchema) (rows : list t) :
  snd (upsert (where_of l) (update_of l) (create_of l) rows) = create_of l.
Proof.
  induction rows as [|r rest IH]; simpl; [reflexivity|].
  destruct (key_eqb (key_of r) (where_of l)) eqn:E; simpl.
  - apply key_eqb_eq in E. unfold key_of, where_of in E.
    injection E as Ha Ht.
    unfold apply_update, create_of, update_of. simpl. rewrite Ha, Ht. reflexivity.
  - destruct (upsert (where_of l) (update_of l) (create_of l) rest). exact IH.
Qed.

Lemma persisted_keeps_unique (ls : list AuctionApiSchema) :
  forall rows, unique_keys rows -> unique_keys (persisted ls rows).
Proof.
  induction ls as [|l rest IH]; intros rows H; simpl; [exact H|].
  apply IH. apply upsert_keeps_unique; [reflexivity | exact H].
Qed.

(** After the upserts of a list, a key holds the values of the last record
    of the list stored under it, and what it held before when there is no
    such record. *)
Lemma persisted_lookup (k : key) (ls : list AuctionApiSchema) :
  forall rows,
    find_unique k (persisted ls rows) =
      match last_with k ls with
      | Some l => Some (create_of l)
      | None => find_unique k rows
      end.
Proof.
  induction ls as [|l rest IH]; intros rows; simpl; [reflexivity|].
  rewrite IH. destruct (last_with k rest); [reflexivity|].
  rewrite (find_unique_upsert _ _ _ _ _ (key_of_create_of l)).
  rewrite upsert_writes_create_of.
  now destruct (key_eqb (where_of l) k).
Qed.

Lemma last_with_In (l : AuctionApiSchema) (ls : list AuctionApiSchema) :
  In l ls -> exists l', last_with (where_of l) ls = Some l'.
Proof.
  induction ls as [|x rest IH]; simpl; [tauto|].
  intros [H|H].
  - subst x. destruct (last_with (where_of l) rest); [eauto|].
    rewrite key_eqb_refl. eauto.
  - destruct (IH H) as [l' E]. rewrite E. eauto.
Qed.

Lemma last_with_key (k : key) (ls : list AuctionApiSchema) (l : AuctionApiSchema) :
  last_with k ls = Some l -> where_of l = k /\ In l ls.
Proof.
  induction ls as [|x rest IH]; simpl; [discriminate|].
  destruct (last_with k rest) as [later|].
  - intros E. inversion E; subst. destruct (IH eq_refl). auto.
  - destruct (key_eqb (where_of x) k) eqn:E; [|discriminate].
    intros H. inversion H; subst. apply key_eqb_eq in E. auto.
Qed.

Lemma persisted_keys_present (ls : list AuctionApiSchema) :
  forall rows,
    (forall l, In l ls -> In (where_of l) (map key_of rows)) ->
    map key_of (persisted ls rows) = map key_of rows.
Proof.
  induction ls as [|l rest IH]; intros rows H; simpl; [reflexivity|].
  assert (E : map key_of (fst (upsert (where_of l) (update_of l) (create_of l) rows))
              = map key_of rows).
  { rewrite (upsert_keys _ _ _ _ (key_of_create_of l)).
    rewrite (proj2 (existsb_key _ _) (H l (or_introl eq_refl))). reflexivity. }
  rewrite IH; [exact E|].
  intros l' Hl'. rewrite E. apply H. now right.
Qed.

(** Two tables with the same keys in the same order and the same row under
    each key are the same table. *)
Lemma table_ext (rows : list t) :
  forall rows',
    map key_of rows = map key_of rows' ->
    (forall k, find_unique k rows = find_unique k rows') ->
    NoDup (map key_of rows) ->
    rows = rows'.
Proof.
  induction rows as [|r rest IH]; intros [|r' rest'] Hk Hf Hnd;
    try discriminate; [reflexivity|].
  simpl in Hk.
  assert (Hk1 : key_of r = key_of r') by congruence.
  assert (Hk2 : map key_of rest = map key_of rest') by congruence.
  inversion Hnd as [|? ? Hnotin Hnd']; subst.
  assert (Er : r = r').
  { specialize (Hf (key_of r)). unfold find_unique in Hf. simpl in Hf.
    rewrite <- Hk1, key_eqb_refl in Hf. congruence. }
  subst r'. f_equal. apply IH; [exact Hk2 | | exact Hnd'].
  intros k. specialize (Hf k). unfold find_unique in *. simpl in Hf.
  destruct (key_eqb (key_of r) k) eqn:E; [|exact Hf].
  apply key_eqb_eq in E. subst k.
  change (find_unique (key_of r) rest = find_unique (key_of r) rest').
  rewrite !find_unique_absent; congruence.
Qed.

(** Persisting the same records a second time changes nothing. *)
Lemma persisted_idempotent (ls : list AuctionApiSchema) (rows : list t) :
  unique_keys rows ->
  persisted ls (persisted ls rows) = persisted ls rows.
Proof.
  intros Hu. apply table_ext.
  - apply persisted_keys_present. intros l Hl.
    destruct (last_with_In _ _ Hl) as [l' E].
    eapply find_unique_Some. rewrite persisted_lookup, E. reflexivity.
  - intros k. rewrite persisted_lookup.
    destruct (last_with k ls) eqn:E; [|reflexivity].
    now rewrite persisted_lookup, E.
  - apply persisted_keeps_unique. apply persisted_keeps_unique. exact Hu.
Qed.

(** The rows stored under a key after the upserts of a list. *)
Lemma rows_with_persisted (k : key) (ls : list AuctionApiSchema) (rows : list t) :
  unique_keys rows ->
  rows_with k (persisted ls rows) =
    match last_with k ls with
    | Some l => [create_of l]
    | None => rows_with k rows
    end.
Proof.
  intros Hu. pose proof (persisted_lookup k ls rows) as Hl.
  pose proof (persisted_keeps_unique ls rows Hu) as Hu'.
  unfold rows_with.
  destruct (last_with k ls) as [l|] eqn:E.
  - now apply rows_with_unique.
  - destruct (find_unique k rows) as [r|] eqn:Er.
    + rewrite (rows_with_unique _ _ _ Hu' Hl). symmetry. now apply rows_with_unique.
    + assert (forall T, find_unique k T = None -> ~ In k (map key_of T)) as Habs.
      { intros T HT Hin. destruct (find_unique_present _ _ Hin). congruence. }
      rewrite !rows_with_absent; auto.
Qed.




End Persistence.

(** ** The upserts of one request *)

Lemma nth_error_extract {A : Type} (l : list A) (i : nat) (x : A) :
  nth_error l i = Some x ->
  Permutation (x :: firstn i l ++ skipn (S i) l) l.
Proof.
  revert i. induction l as [|a l IH]; intros [|i] H; simpl in *; try discriminate.
  - inversion H. reflexivity.
  - apply IH in H. rewrite perm_swap. now constructor.
Qed.

Lemma nth_error_extract_length {A : Type} (l : list A) (i : nat) (x : A) :
  nth_error l i = Some x ->
  S (length (firstn i l ++ skipn (S i) l)) = length l.
Proof.
  intros H. apply nth_error_extract in H. apply Permutation_length in H. exact H.
Qed.

Lemma first_rejection_None (outcomes : list settled) :
  Forall (fun o => exists row, snd o = Ok row) outcomes ->
  first_rejection outcomes = None.
Proof.
  induction 1 as [|[[i l] o] rest [row Hrow] _ IH]; simpl in *; [reflexivity|].
  subst o. exact IH.
Qed.

Lemma first_rejection_Some (outcomes : list settled) (e : exn) :
  first_rejection outcomes = Some e ->
  exists index liquidation, In (index, liquidation, Throw e) outcomes.
Proof.
  induction outcomes as [|[[i l] [row|e']] rest IH]; simpl; intros H.
  - discriminate.
  - destruct (IH H) as (j & l' & Hin). eauto.
  - inversion H; subst. eauto.
Qed.

Lemma flat_map_indexed {A B : Type} (f : nat -> list B) (g : A -> B) (ls : list A) :
  forall a,
    (forall i l, In (i, l) (combine (seq a (length ls)) ls) -> f i = [g l]) ->
    flat_map f (seq a (length ls)) = map g ls.
Proof.
  induction ls as [|l rest IH]; intros a H; simpl; [reflexivity|].
  rewrite (H a l) by (simpl; auto). simpl. f_equal.
  apply IH. intros i l' Hin. apply H. simpl. auto.
Qed.

Lemma map_fst_combine_seq {A : Type} (ls : list A) (a : nat) :
  map fst (combine (seq a (length ls)) ls) = seq a (length ls).
Proof.
  revert a. induction ls as [|l rest IH]; intros a; simpl; [reflexivity|].
  now rewrite IH.
Qed.

Lemma map_snd_combine_seq {A : Type} (ls : list A) (a : nat) :
  map snd (combine (seq a (length ls)) ls) = ls.
Proof.
  revert a. induction ls as [|l rest IH]; intros a; simpl; [reflexivity|].
  now rewrite IH.
Qed.

(** In a list of fulfilled promises with different indices, the value at the
    index of a promise is the value of that promise. *)
Lemma fulfilled_at_In (outcomes : list settled) (index : nat)
  (liquidation : AuctionApiSchema) (row : Liquidation.t) :
  NoDup (map (fun o => fst (fst o)) outcomes) ->
  In (index, liquidation, Ok row) outcomes ->
  fulfilled_at index outcomes = [row].
Proof.
  unfold fulfilled_at.
  induction outcomes as [|[[i l] o] rest IH]; simpl; intros Hnd Hin; [tauto|].
  inversion Hnd as [|? ? Hnotin Hnd']; subst.
  destruct Hin as [Hin|Hin].
  - inversion Hin; subst. now rewrite Nat.eqb_refl.
  - destruct (Nat.eqb i index) eqn:E.
    + apply Nat.eqb_eq in E. subst i. exfalso. apply Hnotin.
      apply (in_map (fun o : settled => fst (fst o))) in Hin. exact Hin.
    + now apply IH.
Qed.

Section Settling.
Context {W : Type} (env : Env W).

Lemma prisma_liquidation_upsert_cases
  (liquidation : AuctionApiSchema) (s s1 : State W)
  (outcome : completion Liquidation.t) :
  prisma_liquidation_upsert env liquidation s = (outcome, s1) ->
  console s1 = console s
  /\ invocations s1 = invocations s
  /\ world s1 = snd (commit env (request_of liquidation) (world s))
  /\ ((exists e,
          fst (commit env (request_of liquidation) (world s)) = Some e
          /\ outcome = Throw e
          /\ table s1 = table s)
      \/ (fst (commit env (request_of liquidation) (world s)) = None
          /\ outcome = Ok (create_of liquidation)
          /\ table s1 = persisted [liquidation] (table s))).
Proof.
  unfold prisma_liquidation_upsert.
  destruct (commit env (request_of liquidation) (world s)) as [[e|] w]; simpl.
  - intros H. inversion H; subst. simpl. repeat split. left. eauto.
  - pose proof (upsert_writes_create_of liquidation (table s)) as Hw.
    destruct (Liquidation.upsert (where_of liquidation) (update_of liquidation)
                (create_of liquidation) (table s)) as [rows written].
    simpl in Hw. subst written.
    intros H. inversion H; subst. simpl. repeat split. right. auto.
Qed.

(** The database takes each pending upsert once; the table ends as the
    upserts it carried out leave it, in the order in which it took them. *)
Lemma settle_spec (fuel : nat) :
  forall (pending : list (nat * AuctionApiSchema)) (s s' : State W)
         (outcomes : list settled),
    settle env fuel pending s = (outcomes, s') ->
    console s' = console s
    /\ invocations s' = invocations s
    /\ table s' = persisted (carried_out outcomes) (table s)
    /\ Forall (settled_well env) outcomes
    /\ (length pending <= fuel -> Permutation (map fst outcomes) pending)%nat.
Proof.
  induction fuel as [|fuel IH]; intros pending s s' outcomes H; simpl in H.
  - inversion H; subst. repeat split; auto.
    intros Hlen. destruct pending; [constructor | simpl in Hlen; lia].
  - destruct (next_upsert env (length pending) (world s)) as [choice w].
    destruct (nth_error pending (choice mod length pending)) as [[index l]|] eqn:En.
    + destruct (prisma_liquidation_upsert env l _) as [outcome s1] eqn:Eu.
      destruct (settle env fuel _ s1) as [later s2] eqn:Es.
      inversion H; subst. clear H.
      apply prisma_liquidation_upsert_cases in Eu. simpl in Eu.
      destruct Eu as (Hc & Hi & _ & Hcase).
      apply IH in Es. destruct Es as (Hc' & Hi' & Ht' & Hall & Hperm).
      split; [congruence|]. split; [congruence|].
      split; [|split].
      * destruct Hcase as [(e & _ & -> & Ht) | (_ & -> & Ht)]; simpl.
        -- now rewrite Ht', Ht.
        -- now rewrite Ht', Ht.
      * constructor; [|exact Hall].
        destruct Hcase as [(e & He & -> & _) | (He & -> & _)]; simpl; eauto.
      * intros Hlen. simpl.
        rewrite <- (nth_error_extract _ _ _ En). constructor.
        apply Hperm. pose proof (nth_error_extract_length _ _ _ En) as Hl.
        simpl in Hl. lia.
    + inversion H; subst. repeat split; auto.
      intros Hlen. destruct pending as [|p rest]; [constructor|].
      exfalso. apply nth_error_None in En.
      pose proof (Nat.mod_upper_bound choice (length (p :: rest))) as Hb.
      simpl in *. lia.
Qed.

Lemma carried_out_incl (outcomes : list settled) :
  incl (carried_out outcomes) (map snd (map fst outcomes)).
Proof.
  induction outcomes as [|[[i l] [row|e]] rest IH]; simpl.
  - apply incl_refl.
  - now apply incl_cons; [left | apply incl_tl].
  - now apply incl_tl.
Qed.

Lemma carried_out_all (outcomes : list settled) :
  Forall (fun o => exists row, snd o = Ok row) outcomes ->
  carried_out outcomes = map snd (map fst outcomes).
Proof.
  induction 1 as [|[[i l] o] rest [row Hrow] _ IH]; simpl in *; [reflexivity|].
  subst o. now rewrite IH.
Qed.

Lemma settled_well_accepted (outcomes : list settled) :
  accepts_every_upsert env ->
  Forall (settled_well env) outcomes ->
  Forall (fun o => exists row, snd o = Ok row) outcomes.
Proof.
  intros Hacc Hall. eapply Forall_impl; [|exact Hall].
  intros [[i l] [row|e]]; simpl.
  - eauto.
  - intros [w Hw]. rewrite Hacc in Hw. discriminate.
Qed.

(** [Promise.all] of promises that were all fulfilled: the rows of the
    records, in the order of the records, whatever the order in which the
    promises were settled. *)
Lemma Promise_all_fulfilled (ls : list AuctionApiSchema) (outcomes : list settled) :
  Permutation (map fst outcomes) (liquidationOperations ls) ->
  Forall (settled_well env) outcomes ->
  Forall (fun o => exists row, snd o = Ok row) outcomes ->
  Promise_all (length ls) outcomes = Ok (map create_of ls).
Proof.
  intros Hperm Hwell Hok. unfold Promise_all.
  rewrite (first_rejection_None _ Hok). f_equal.
  apply flat_map_indexed. intros i l Hin.
  assert (Hnd : NoDup (map (fun o : settled => fst (fst o)) outcomes)).
  { rewrite <- map_map. rewrite (Permutation_map fst Hperm).
    unfold liquidationOperations. rewrite map_fst_combine_seq. apply seq_NoDup. }
  assert (Hin' : In (i, l) (map fst outcomes)).
  { eapply Permutation_in; [symmetry; exact Hperm | exact Hin]. }
  apply in_map_iff in Hin'. destruct Hin' as ([[j l'] o] & Heq & Ho).
  simpl in Heq. inversion Heq; subst j l'.
  rewrite Forall_forall in Hwell, Hok.
  destruct (Hok _ Ho) as [row Hrow]. simpl in Hrow. subst o.
  destruct (Hwell _ Ho) as [Hrow _]. subst row.
  now apply (fulfilled_at_In outcomes i l).
Qed.

(** What a call of [upsertLiquidations] does. *)
Lemma upsertLiquidations_spec (ls : list AuctionApiSchema) (s s' : State W)
  (r : completion (list Liquidation.t)) :
  upsertLiquidations env ls s = (r, s') ->
  exists outcomes,
    r = Promise_all (length ls) outcomes
    /\ Permutation (map fst outcomes) (liquidationOperations ls)
    /\ Forall (settled_well env) outcomes
    /\ console s' = console s
    /\ invocations s' = (invocations s ++ [ls])%list
    /\ table s' = persisted (carried_out outcomes) (table s).
Proof.
  unfold upsertLiquidations. unfold bind, record_invocation.
  destruct (settle env (length ls) (liquidationOperations ls) _) as [outcomes s1] eqn:Es.
  intros H. inversion H; subst. clear H.
  apply settle_spec in Es. simpl in Es.
  destruct Es as (Hc & Hi & Ht & Hall & Hperm).
  exists outcomes. repeat split; auto.
  apply Hperm. unfold liquidationOperations.
  rewrite length_combine, length_seq. lia.
Qed.

Lemma carried_out_of_the_records (ls : list AuctionApiSchema) (outcomes : list settled) :
  Permutation (map fst outcomes) (liquidationOperations ls) ->
  incl (carried_out outcomes) ls.
Proof.
  intros Hperm l Hl. apply carried_out_incl in Hl.
  apply (Permutation_map snd) in Hperm.
  unfold liquidationOperations in Hperm. rewrite map_snd_combine_seq in Hperm.
  eapply Permutation_in; eauto.
Qed.

Lemma carried_out_every_record (ls : list AuctionApiSchema) (outcomes : list settled) :
  accepts_every_upsert env ->
  Forall (settled_well env) outcomes ->
  Permutation (map fst outcomes) (liquidationOperations ls) ->
  Permutation (carried_out outcomes) ls.
Proof.
  intros Hacc Hwell Hperm.
  rewrite (carried_out_all _ (settled_well_accepted _ Hacc Hwell)).
  apply (Permutation_map snd) in Hperm.
  unfold liquidationOperations in Hperm. now rewrite map_snd_combine_seq in Hperm.
Qed.

End Settling.

(** ** The handler *)

Section Handler.
Context {W : Type} (env : Env W).

(** What the handler answers once the aggregator has returned a list: 200
    with the list when [upsertLiquidations] is fulfilled, 500 with the message
    of the rejection when it is rejected. *)
Lemma GET_after_the_aggregator
  (s s1 s2 : State W) (result : list AuctionApiSchema)
  (r : completion (list Liquidation.t)) :
  getAllLiquidatable env s = (Ok result, s1) ->
  upsertLiquidations env result s1 = (r, s2) ->
  GET env s =
    match r with
    | Ok _ => (Ok {| body := ResultBody result; http_status := 200 |}, s2)
    | Throw e =>
        (Ok {| body := ErrorBody "Failed to fetch positions" (message_or_unknown e);
               http_status := 500 |},
         {| world := world s2;
            console := (console s2 ++ [("Detailed error:", e)])%list;
            table := table s2;
            invocations := invocations s2 |})
    end.
Proof.
  intros Ha Hu. unfold GET. unfold try_catch at 1. unfold bind at 1. rewrite Ha.
  unfold bind at 1. rewrite Hu. destruct r as [rows|e]; reflexivity.
Qed.

(** What the handler does when the aggregator throws. *)
Lemma GET_failure (s s1 : State W) (e : exn) :
  getAllLiquidatable env s = (Throw e, s1) ->
  GET env s =
    (Ok {| body := ErrorBody "Failed to fetch positions" (message_or_unknown e);
           http_status := 500 |},
     {| world := world s1;
        console := (console s1 ++ [("Detailed error:", e)])%list;
        table := table s;
        invocations := invocations s |}).
Proof.
  intros H.
  destruct (read_only_getAllLiquidatable env _ _ _ H) as [Ht Hi].
  unfold GET. unfold try_catch at 1. unfold bind at 1. rewrite H.
  unfold bind, console_error, ret. rewrite Ht, Hi. reflexivity.
Qed.

(** The request as a whole, once the aggregator has returned a list. *)
Lemma GET_persists (s s1 : State W) (result : list AuctionApiSchema) :
  getAllLiquidatable env s = (Ok result, s1) ->
  exists response s2 applied,
    GET env s = (Ok response, s2)
    /\ invocations s2 = (invocations s ++ [result])%list
    /\ incl applied result
    /\ table s2 = persisted applied (table s)
    /\ (accepts_every_upsert env ->
        response = {| body := ResultBody result; http_status := 200 |}
        /\ Permutation applied result).
Proof.
  intros Ha.
  destruct (read_only_getAllLiquidatable env _ _ _ Ha) as [Ht Hi].
  destruct (upsertLiquidations env result s1) as [r s2] eqn:Hu.
  rewrite (GET_after_the_aggregator _ _ _ _ _ Ha Hu).
  destruct (upsertLiquidations_spec env _ _ _ _ Hu)
    as (outcomes & Hr & Hperm & Hwell & Hc & Hi' & Ht').
  assert (Hacc : accepts_every_upsert env ->
                 r = Ok (map create_of result)
                 /\ Permutation (carried_out outcomes) result).
  { intros Hacc. split.
    - rewrite Hr. apply (Promise_all_fulfilled env); auto.
      now apply (settled_well_accepted env).
    - now apply (carried_out_every_record env). }
  destruct r as [rows|e].
  - eexists. eexists. exists (carried_out outcomes).
    split; [reflexivity|]. split; [congruence|].
    split; [now apply carried_out_of_the_records|].
    split; [congruence|]. intros Hacc'. split; [reflexivity | now apply Hacc].
  - eexists. eexists. exists (carried_out outcomes).
    split; [reflexivity|]. simpl. split; [congruence|].
    split; [now apply carried_out_of_the_records|].
    split; [congruence|]. intros Hacc'. destruct (Hacc Hacc'). discriminate.
Qed.

(** C1: when [getAllLiquidatable] returns a list, the positions of its
    records are, in fetch order, exactly the fetched positions for which
    [checkLiquidatableStatus] returned [true], every record is flagged
    liquidatable, and each position for which it returned [false] is one of
    those left out; the handler passes that same list, and nothing else, to
    [upsertLiquidations], and the table receives upserts of its records
    only: of all of them, with the answer 200, when the database carries out
    every upsert. *)
Theorem getAllLiquidatable_keeps_the_liquidatable
  (s s1 : State W) (result : list AuctionApiSchema) :
  getAllLiquidatable env s = (Ok result, s1) ->
  exists ps nfts sa s0 response s2 applied,
    fetchGraphQLPositions env s = (Ok (Some ps), sa)
    /\ fetchNFTData env sa = (Ok nfts, s0)
    /\ map position result = liquidatable ps (verdicts env nfts ps s0)
    /\ Forall (fun record => isLiquidatableStatus record = true) result
    /\ (length result + length (healthy ps (verdicts env nfts ps s0)))%nat = length ps
    /\ GET env s = (Ok response, s2)
    /\ invocations s2 = (invocations s ++ [result])%list
    /\ incl applied result
    /\ table s2 = persisted applied (table s)
    /\ (accepts_every_upsert env ->
        response = {| body := ResultBody result; http_status := 200 |}
        /\ Permutation applied result).
Proof.
  intros H.
  destruct (getAllLiquidatable_returns env _ _ _ H) as (ps & nfts & sa & s0 & Hp & Hn & Hloop).
  destruct (for_positions_spec env _ _ _ _ _ _ Hloop) as (added & Hres & Hmap & Hall).
  simpl in Hres. subst added.
  destruct (GET_persists _ _ _ H) as (response & s2 & applied & Hg & Hi & Hincl & Ht & Hacc).
  exists ps, nfts, sa, s0, response, s2, applied.
  split; [exact Hp|]. split; [exact Hn|]. split; [exact Hmap|].
  split; [|split; [|auto 10]].
  - eapply Forall_impl; [|exact Hall]. intros r Hr. apply Hr.
  - rewrite <- (length_map position), Hmap.
    apply liquidatable_or_healthy.
    + apply verdicts_length.
    + apply verdicts_boolean.
Qed.

(** C5: every record the aggregator returns carries the first NFT record, in
    list order, whose token id is the same string as the token id of the
    record's position, and the empty object when no NFT record has it. *)
Theorem getAllLiquidatable_joins_by_token_id
  (s s1 : State W) (result : list AuctionApiSchema) :
  getAllLiquidatable env s = (Ok result, s1) ->
  exists ps nfts sa s0,
    fetchGraphQLPositions env s = (Ok (Some ps), sa)
    /\ fetchNFTData env sa = (Ok nfts, s0)
    /\ Forall (joined nfts) result.
Proof.
  intros H.
  destruct (getAllLiquidatable_returns env _ _ _ H) as (ps & nfts & sa & s0 & Hp & Hn & Hloop).
  destruct (for_positions_spec env _ _ _ _ _ _ Hloop) as (added & Hres & Hmap & Hall).
  simpl in Hres. subst added.
  exists ps, nfts, sa, s0. repeat split; try assumption.
  eapply Forall_impl; [|exact Hall]. intros r Hr. apply Hr.
Qed.

(** C7: when the indexer answers the GraphQL request with a status that is
    not a success, the handler answers 500 with an [error] field (and the
    status in [details]); the table is untouched and [upsertLiquidations] is
    not called. *)
Theorem GET_when_indexer_fails
  (s : State W) (response : Response GraphQLBody) (w' : W) :
  fetch_graphql env (world s) = (Ok response, w') ->
  ok response = false ->
  GET env s =
    (Ok {| body := ErrorBody "Failed to fetch positions"
                     ("GraphQL request failed with status "
                      ++ string_of_Z (status response));
           http_status := 500 |},
     {| world := w';
        console :=
          (console s
           ++ [("Error fetching GraphQL positions:",
                Error ("GraphQL request failed with status "
                       ++ string_of_Z (status response)));
               ("Error fetching liquidatable positions:",
                Error ("GraphQL request failed with status "
                       ++ string_of_Z (status response)));
               ("Detailed error:",
                Error ("GraphQL request failed with status "
                       ++ string_of_Z (status response)))])%list;
        table := table s;
        invocations := invocations s |}).
Proof.
  intros Hfetch Hok.
  unfold GET, getAllLiquidatable, fetchGraphQLPositions. unfold_js.
  rewrite Hfetch. simpl. rewrite Hok. simpl.
  rewrite <- !app_assoc. reflexivity.
Qed.

End Handler.

(** ** Two requests, one table *)

Section Keys.
Import LiquidationFacts.

(** The key of the upsert of a record is (collateral address, token id). *)
Lemma where_of_stored_under (record : AuctionApiSchema) :
  where_of record = stored_under record.
Proof.
  unfold where_of, stored_under, collateral_address, token_of, or_default.
  f_equal.
  - destruct (contract (nftData record)) as [c|]; [|reflexivity].
    destruct (address c) as [a|]; [|reflexivity].
    destruct (String.eqb_spec a ""); congruence.
  - destruct (tokenId (position record)) as [| |t]; try reflexivity. simpl.
    destruct (String.eqb_spec t ""); congruence.
Qed.

Lemma create_of_key_columns (record : AuctionApiSchema) :
  Liquidation.addressIP (create_of record) = collateral_address record
  /\ Liquidation.tokenId (create_of record) = token_of record.
Proof.
  pose proof (key_of_create_of record) as H.
  rewrite where_of_stored_under in H. unfold Liquidation.key_of, stored_under in H.
  inversion H. auto.
Qed.

Lemma NoDup_map_injective {A B : Type} (f : A -> B) (l : list A) (x y : A) :
  NoDup (map f l) -> In x l -> In y l -> f x = f y -> x = y.
Proof.
  induction l as [|a l IH]; simpl; intros Hnd Hx Hy Hf; [tauto|].
  inversion Hnd as [|? ? Hnotin Hnd']; subst.
  destruct Hx as [Hx|Hx], Hy as [Hy|Hy]; subst.
  - reflexivity.
  - exfalso. apply Hnotin. rewrite Hf. now apply in_map.
  - exfalso. apply Hnotin. rewrite <- Hf. now apply in_map.
  - now apply IH.
Qed.

(** The row under the key of a record after upserts that include the
    record: the row of one of the upserted records with that key. *)
Lemma rows_with_winner (applied : list AuctionApiSchema) (rows : list Liquidation.t)
  (record : AuctionApiSchema) :
  unique_keys rows ->
  In record applied ->
  exists winner,
    In winner applied
    /\ where_of winner = where_of record
    /\ rows_with (where_of record) (persisted applied rows) = [create_of winner].
Proof.
  intros Hu Hin.
  destruct (last_with_In _ _ Hin) as [winner E].
  destruct (last_with_key _ _ _ E) as [Hk Hw].
  exists winner. repeat split; auto.
  now rewrite (rows_with_persisted _ _ _ Hu), E.
Qed.





End Keys.

Section Pipeline.
Context {W : Type} (env : Env W).
Import LiquidationFacts.


(** One request on a database that carries out every upsert. *)
Lemma GET_accepted (s s1 s' : State W) (result : list AuctionApiSchema)
  (r : completion NextResponse) :
  accepts_every_upsert env ->
  getAllLiquidatable env s = (Ok result, s1) ->
  GET env s = (r, s') ->
  r = Ok {| body := ResultBody result; http_status := 200 |}
  /\ exists applied,
       Permutation applied result
       /\ table s' = persisted applied (table s).
Proof.
  intros Hacc Ha Hg.
  destruct (GET_persists env _ _ _ Ha) as (response & s2 & applied & Hg' & _ & _ & Ht & Hok).
  rewrite Hg in Hg'. inversion Hg'; subst.
  destruct (Hok Hacc) as [-> Hperm]. split; [reflexivity|].
  exists applied. auto.
Qed.


(** C8: one fetched position with id ["0xabc-7"], token id ["7"],
    [borrowShares = 50], [totalBorrowShares = 100] and
    [totalBorrowAssets = 1000]; the liquidatability read returns [true] and
    the oracle read returns [250], and the database carries out the upsert.
    The handler answers 200 with one record,
    whose debt is ["500"] and whose floor price is ["250"], and the table then
    holds exactly one row under the key (contract address of the joined NFT,
    ["7"]), with that debt and that floor price. *)
Theorem GET_single_liquidatable_position
  (s : State W) (p : PositionSchema) (owned : list AlchemyNftSchema)
  (response : Response GraphQLBody) (nft_response : Response NftBody)
  (w1 w2 w3 w4 : W) :
  id p = Some "0xabc-7" ->
  tokenId p = value "7" ->
  borrowShares p = Number_of_Z 50 ->
  totalBorrowShares (pool p) = Number_of_Z 100 ->
  totalBorrowAssets (pool p) = Number_of_Z 1000 ->
  fetch_graphql env (world s) = (Ok response, w1) ->
  ok response = true ->
  json response = Ok {| data := value {| positions := Some [p] |} |} ->
  fetch_nft env w1 = (Ok nft_response, w2) ->
  ok nft_response = true ->
  json nft_response = Ok {| ownedNfts := value owned |} ->
  unhealthyList env (Some "0xabc") 7 w2 = (Ok true, w3) ->
  getPrice env (oracle (pool p)) 7 w3 = (Ok 250, w4) ->
  unique_keys (table s) ->
  accepts_every_upsert env ->
  exists record s',
    GET env s = (Ok {| body := ResultBody [record]; http_status := 200 |}, s')
    /\ position record = p
    /\ debt record = "500"
    /\ floorPrice record = "250"
    /\ joined_on "7" owned (nftData record)
    /\ where_of record =
         {| Liquidation.k_addressIP :=
              or_default (match contract (nftData record) with
                          | Some c => address c
                          | None => None
                          end) "";
            Liquidation.k_tokenId := "7" |}
    /\ rows_with (where_of record) (table s') = [create_of record]
    /\ Liquidation.debt (create_of record) = "500"
    /\ Liquidation.floorPrice (create_of record) = "250".
Proof.
  intros Hid Htok Hb Hts Hta Hf Hok Hj Hn Hnok Hnj Hu Hp Huniq Hacc.
  set (nft := match List.find (fun nft => strict_eq (nft_tokenId nft) (value "7")) owned with
              | Some nft => nft
              | None => empty_object
              end).
  set (record := {| nftData := nft; isLiquidatableStatus := true; position := p;
                    floorPrice := "250"; debt := "500" |}).
  assert (Hdebt : calculateDebt p = "500").
  { unfold calculateDebt. rewrite Hb, Hts, Hta. vm_compute. reflexivity. }
  assert (Hprice : Number_toString (Number_of_BigInt 250) = "250")
    by (vm_compute; reflexivity).
  assert (Hsplit : split "-" "0xabc-7" = ["0xabc"; "7"]) by reflexivity.
  assert (Hbig : BigInt (value "7") = Ok 7) by (vm_compute; reflexivity).
  assert (Hagg : exists a, getAllLiquidatable env s = (Ok [record], a)).
  { with_strategy opaque [Number_toString Number_of_BigInt calculateDebt BigInt split]
      (unfold getAllLiquidatable, fetchGraphQLPositions, fetchNFTData; unfold_js;
       rewrite Hf; simpl; rewrite Hok, Hj; simpl;
       rewrite Hn; simpl; rewrite Hnok, Hnj; simpl;
       unfold visit, checkLiquidatableStatus; unfold_js;
       rewrite Hid, Hsplit; simpl; rewrite Hbig, Hu; simpl;
       rewrite Htok, Hbig; simpl;
       unfold fetchFloorPrice; unfold_js; simpl; rewrite Hp; simpl;
       rewrite Hdebt, Hprice).
    eexists. reflexivity. }
  destruct Hagg as [a Hagg].
  destruct (GET env s) as [r s'] eqn:Hg.
  destruct (GET_accepted _ _ _ _ _ Hacc Hagg Hg) as (-> & applied & Hperm & Ht).
  apply Permutation_sym, Permutation_length_1_inv in Hperm. subst applied.
  exists record, s'. split; [reflexivity|].
  cbn [position debt floorPrice nftData record].
  assert (Hw : where_of record =
               {| Liquidation.k_addressIP :=
                    or_default (match contract nft with
                                | Some c => address c
                                | None => None
                                end) "";
                  Liquidation.k_tokenId := "7" |}).
  { unfold where_of. simpl. rewrite Htok. reflexivity. }
  split; [reflexivity|]. split; [reflexivity|]. split; [reflexivity|].
  split; [apply find_joined_on|]. split; [exact Hw|].
  split; [|split; reflexivity].
  rewrite Ht, (rows_with_persisted _ _ _ Huniq). simpl.
  now rewrite LiquidationFacts.key_eqb_refl.
Qed.

End Pipeline.

(** ** The persistence layer *)

Lemma first_rejection_fulfilled (outcomes : list settled) :
  first_rejection outcomes = None ->
  Forall (fun o => exists row, snd o = Ok row) outcomes.
Proof.
  induction outcomes as [|[[i l] [row|e]] rest IH]; simpl; intros H.
  - constructor.
  - constructor; [simpl; eauto | now apply IH].
  - discriminate.
Qed.

Section Upserts.
Context {W : Type} (env : Env W).
Import LiquidationFacts.

(** A call of [upsertLiquidations], by its result. *)
Lemma upsertLiquidations_result (ls : list AuctionApiSchema) (s s' : State W)
  (r : completion (list Liquidation.t)) :
  upsertLiquidations env ls s = (r, s') ->
  console s' = console s
  /\ invocations s' = (invocations s ++ [ls])%list
  /\ (exists applied,
        incl applied ls /\ table s' = persisted applied (table s)
        /\ ((accepts_every_upsert env \/ exists rows, r = Ok rows) ->
            Permutation applied ls))
  /\ (accepts_every_upsert env -> r = Ok (map create_of ls))
  /\ (forall rows, r = Ok rows -> rows = map create_of ls)
  /\ (forall e, r = Throw e ->
        exists l w, In l ls /\ fst (commit env (request_of l) w) = Some e).
Proof.
  intros H.
  destruct (upsertLiquidations_spec env _ _ _ _ H)
    as (outcomes & Hr & Hperm & Hwell & Hc & Hi & Ht).
  assert (Hful : Forall (fun o : settled => exists row, snd o = Ok row) outcomes ->
                 r = Ok (map create_of ls) /\ Permutation (carried_out outcomes) ls).
  { intros Hok. split.
    - rewrite Hr. now apply (Promise_all_fulfilled env).
    - rewrite (carried_out_all _ Hok).
      apply (Permutation_map snd) in Hperm.
      unfold liquidationOperations in Hperm.
      now rewrite map_snd_combine_seq in Hperm. }
  assert (Hfirst : forall rows, r = Ok rows ->
                   Forall (fun o : settled => exists row, snd o = Ok row) outcomes).
  { intros rows Hrows. apply first_rejection_fulfilled.
    rewrite Hr in Hrows. unfold Promise_all in Hrows.
    now destruct (first_rejection outcomes). }
  split; [exact Hc|]. split; [exact Hi|]. split; [|split; [|split]].
  - exists (carried_out outcomes). split; [now apply carried_out_of_the_records|].
    split; [exact Ht|]. intros [Hacc | [rows Hrows]].
    + apply Hful. now apply (settled_well_accepted env).
    + apply Hful. now apply (Hfirst rows).
  - intros Hacc. apply Hful. now apply (settled_well_accepted env).
  - intros rows Hrows. destruct (Hful (Hfirst rows Hrows)) as [Hr' _]. congruence.
  - intros e He. rewrite Hr in He. unfold Promise_all in He.
    destruct (first_rejection outcomes) as [e'|] eqn:Ef; [|discriminate].
    inversion He; subst e'.
    destruct (first_rejection_Some _ _ Ef) as (i & l & Hin).
    rewrite Forall_forall in Hwell. destruct (Hwell _ Hin) as [w Hw].
    exists l, w. split; [|exact Hw].
    apply (in_map fst) in Hin. apply (in_map snd) in Hin. simpl in Hin.
    apply (Permutation_map snd) in Hperm.
    unfold liquidationOperations in Hperm. rewrite map_snd_combine_seq in Hperm.
    eapply Permutation_in; eauto.
Qed.

(** C10: a record whose NFT is the empty object is upserted with the empty
    string as the [addressIP] of its key, in [where] and in [create] alike.
    When [upsertLiquidations] is run on a list that holds two such records
    with the same position token id, on a table that respects its unique
    constraint and a database that carries out every upsert, both upserts go
    to the one row under ([''], token id): afterwards the table holds exactly
    one row under that key, with the values of a record of the list that has
    that key. *)
Theorem placeholder_records_share_a_row
  (ls : list AuctionApiSchema) (a b : AuctionApiSchema) (s s' : State W)
  (r : completion (list Liquidation.t)) :
  accepts_every_upsert env ->
  unique_keys (table s) ->
  In a ls ->
  In b ls ->
  nftData a = empty_object ->
  nftData b = empty_object ->
  tokenId (position a) = tokenId (position b) ->
  upsertLiquidations env ls s = (r, s') ->
  Liquidation.where_ (request_of a)
  = {| Liquidation.k_addressIP := ""; Liquidation.k_tokenId := token_of a |}
  /\ Liquidation.where_ (request_of b) = Liquidation.where_ (request_of a)
  /\ Liquidation.addressIP (Liquidation.create (request_of a)) = ""
  /\ Liquidation.addressIP (Liquidation.create (request_of b)) = ""
  /\ r = Ok (map create_of ls)
  /\ exists winner,
       In winner ls
       /\ collateral_address winner = ""
       /\ token_of winner = token_of a
       /\ rows_with {| Liquidation.k_addressIP := ""; Liquidation.k_tokenId := token_of a |}
            (table s')
          = [create_of winner].
Proof.
  intros Hacc Hu Ha Hb Hna Hnb Htok Hrun.
  assert (Hka : stored_under a
                = {| Liquidation.k_addressIP := ""; Liquidation.k_tokenId := token_of a |}).
  { unfold stored_under, collateral_address. now rewrite Hna. }
  assert (Hkb : stored_under b = stored_under a).
  { unfold stored_under, collateral_address, token_of. now rewrite Hna, Hnb, Htok. }
  destruct (upsertLiquidations_result _ _ _ _ Hrun)
    as (_ & _ & (applied & _ & Ht & Hperm) & Hok & _ & _).
  specialize (Hperm (or_introl Hacc)).
  split; [|split; [|split; [|split; [|split]]]].
  - unfold request_of. cbn [Liquidation.where_].
    now rewrite where_of_stored_under.
  - unfold request_of. cbn [Liquidation.where_].
    now rewrite !where_of_stored_under.
  - unfold request_of. cbn [Liquidation.create].
    destruct (create_of_key_columns a) as [-> _].
    unfold collateral_address. now rewrite Hna.
  - unfold request_of. cbn [Liquidation.create].
    destruct (create_of_key_columns b) as [-> _].
    unfold collateral_address. now rewrite Hnb.
  - now apply Hok.
  - assert (Hin : In a applied)
      by (eapply Permutation_in; [symmetry; exact Hperm | exact Ha]).
    destruct (rows_with_winner applied (table s) a Hu Hin) as (winner & Hw & Hk & Hrows).
    rewrite !where_of_stored_under, Hka in *. rewrite <- Ht in Hrows.
    exists winner. unfold stored_under in Hk. injection Hk as Hk1 Hk2.
    split; [eapply Permutation_in; [exact Hperm | exact Hw]|].
    split; [exact Hk1|]. split; [exact Hk2 | exact Hrows].
Qed.

(** X11: [upsertLiquidations] is fulfilled when the database carries out
    every upsert, and then, whatever the order in which the database took the
    upserts, it returns one row per record in the order of the records, the row
    of a record holding the values of that record whether it was created or
    updated.  When it is rejected, its error is the rejection by the database
    of the upsert of one of the records.  Either way it logs nothing. *)
Theorem upsertLiquidations_returns_the_rows_of_the_records
  (liquidations : list AuctionApiSchema) (s s' : State W)
  (r : completion (list Liquidation.t)) :
  upsertLiquidations env liquidations s = (r, s') ->
  (accepts_every_upsert env -> r = Ok (map create_of liquidations))
  /\ (forall rows, r = Ok rows -> rows = map create_of liquidations)
  /\ (forall e, r = Throw e ->
        exists l w,
          In l liquidations /\ fst (commit env (request_of l) w) = Some e)
  /\ console s' = console s
  /\ invocations s' = (invocations s ++ [liquidations])%list.
Proof.
  intros H.
  destruct (upsertLiquidations_result _ _ _ _ H) as (Hc & Hi & _ & Hok & Hrows & Hrej).
  auto.
Qed.



(** X14: what [upsertLiquidations] wrote, [getAllLiquidations] reads back,
    when the database carried out every upsert and answers the read: for
    each record the rows returned contain the row of a record of the list
    with the same key (collateral address, token id), and the row of the
    record itself when the keys of the list are pairwise different.  When
    the database rejects the read, [getAllLiquidations] throws that
    rejection. *)
Theorem getAllLiquidations_reads_back_the_upserts
  (liquidations : list AuctionApiSchema) (s s1 : State W)
  (written : completion (list Liquidation.t)) (answer : option exn) (w' : W) :
  accepts_every_upsert env ->
  upsertLiquidations env liquidations s = (written, s1) ->
  find_many env (world s1) = (answer, w') ->
  match answer with
  | Some e =>
      getAllLiquidations env s1 =
        (Throw e, {| world := w'; console := console s1; table := table s1;
                     invocations := invocations s1 |})
  | None =>
      exists rows,
        getAllLiquidations env s1 =
          (Ok rows, {| world := w'; console := console s1; table := table s1;
                       invocations := invocations s1 |})
        /\ (forall l, In l liquidations ->
              exists l',
                In l' liquidations
                /\ stored_under l' = stored_under l
                /\ In (create_of l') rows)
        /\ (NoDup (map stored_under liquidations) ->
            forall l, In l liquidations -> In (create_of l) rows)
  end.
Proof.
  intros Hacc H Hread.
  destruct answer as [e|]; unfold getAllLiquidations; rewrite Hread; [reflexivity|].
  destruct (upsertLiquidations_result _ _ _ _ H)
    as (_ & _ & (applied & _ & Ht & Hperm) & _).
  specialize (Hperm (or_introl Hacc)).
  assert (Hback : forall l, In l liquidations ->
            exists l', In l' liquidations /\ stored_under l' = stored_under l
                       /\ In (create_of l') (table s1)).
  { intros l Hl.
    assert (Hl' : In l applied)
      by (eapply Permutation_in; [symmetry; exact Hperm | exact Hl]).
    destruct (last_with_In _ _ Hl') as [l' E].
    destruct (last_with_key _ _ _ E) as [Hk Hin].
    exists l'. split; [eapply Permutation_in; eauto|].
    split; [rewrite <- !where_of_stored_under; exact Hk|].
    pose proof (persisted_lookup (where_of l) applied (table s)) as Hp.
    rewrite E, <- Ht in Hp. unfold Liquidation.find_unique in Hp.
    apply find_some in Hp. apply Hp. }
  exists (table s1). split; [reflexivity|]. split; [exact Hback|].
  intros Hnd l Hl. destruct (Hback l Hl) as (l' & Hl' & Hk & Hin).
  assert (l' = l) by (apply (NoDup_map_injective stored_under liquidations); auto).
  now subst l'.
Qed.

End Upserts.

(** ** Further properties of the endpoint *)

Section Readers.
Context {W : Type} (env : Env W).

(** When the liquidatability read answers, the checker returns the answer
    and logs nothing. *)
Lemma checkLiquidatableStatus_returns_the_read
  (position : PositionSchema) (s : State W)
  (i poolId tokenId : string) (rest : list string) (token : Z) (b : bool) (w' : W) :
  id position = Some i ->
  split "-" i = poolId :: tokenId :: rest ->
  StringToBigInt tokenId = Some token ->
  unhealthyList env (Some poolId) token (world s) = (Ok b, w') ->
  checkLiquidatableStatus env position s =
    (Ok b, {| world := w'; console := console s; table := table s;
              invocations := invocations s |}).
Proof.
  intros Hid Hsplit Hbig Hread.
  unfold checkLiquidatableStatus. unfold_js.
  rewrite Hid, Hsplit. simpl. unfold BigInt. rewrite Hbig. simpl.
  rewrite Hread. reflexivity.
Qed.

(** X1: [checkLiquidatableStatus] never throws and never writes the table,
    and its answer and its log line follow what happened.  Either the id
    gave a pool segment and a token segment that is a BigInt, the read was
    made with them and answered: the checker returns the answer and logs
    nothing.  Or that read threw: it returns [false] and logs the error of the
    read, once.  Or [BigInt] threw on the token segment (missing, or not an
    integer): it returns [false] and logs that error, once, without any
    read. *)
Theorem checkLiquidatableStatus_logs_what_it_swallows
  (position : PositionSchema) (s : State W) :
  exists b s',
    checkLiquidatableStatus env position s = (Ok b, s')
    /\ table s' = table s
    /\ invocations s' = invocations s
    /\ ((exists i poolId segment rest token,
            id position = Some i
            /\ split "-" i = poolId :: segment :: rest
            /\ StringToBigInt segment = Some token
            /\ ((unhealthyList env (Some poolId) token (world s) = (Ok b, world s')
                 /\ console s' = console s)
                \/ (exists e,
                       unhealthyList env (Some poolId) token (world s)
                       = (Throw e, world s')
                       /\ b = false
                       /\ console s' =
                            (console s
                             ++ [("Error checking liquidatable status:", e)])%list)))
        \/ (exists e,
               BigInt (match nth_error (match id position with
                                        | Some i => split "-" i
                                        | None => []
                                        end) 1 with
                       | Some segment => value segment
                       | None => undefined
                       end) = Throw e
               /\ b = false
               /\ world s' = world s
               /\ console s' =
                    (console s ++ [("Error checking liquidatable status:", e)])%list)).
Proof.
  unfold checkLiquidatableStatus. unfold_js.
  destruct (id position) as [i|].
  - destruct (split "-" i) as [|poolId [|segment rest]] eqn:Hsplit.
    + exfalso. exact (split_nonempty _ _ Hsplit).
    + simpl. exists false. eexists. split; [reflexivity|]. simpl.
      repeat split. right. eexists. repeat split.
    + simpl. unfold BigInt.
      destruct (StringToBigInt segment) as [token|] eqn:Hbig; simpl.
      * destruct (unhealthyList env (Some poolId) token (world s)) as [[b|e] w] eqn:Hread;
          simpl.
        -- exists b. eexists. split; [reflexivity|]. simpl. repeat split.
           left. exists i, poolId, segment, rest, token.
           split; [reflexivity|]. split; [exact Hsplit|]. split; [exact Hbig|].
           left. auto.
        -- exists false. eexists. split; [reflexivity|]. simpl. repeat split.
           left. exists i, poolId, segment, rest, token.
           split; [reflexivity|]. split; [exact Hsplit|]. split; [exact Hbig|].
           right. exists e. auto.
      * exists false. eexists. split; [reflexivity|]. simpl. repeat split.
        right. eexists. repeat split.
  - simpl. exists false. eexists. split; [reflexivity|]. simpl.
    repeat split. right. eexists. repeat split.
Qed.

(** X2: a [true] from [checkLiquidatableStatus] is always the answer of the
    contract: the id of the position has a pool segment and a token segment,
    the token segment is a BigInt, the read was made with the two and
    returned [true], and nothing was logged. *)
Theorem checkLiquidatableStatus_true_comes_from_the_contract
  (position : PositionSchema) (s s' : State W) :
  checkLiquidatableStatus env position s = (Ok true, s') ->
  exists i poolId tokenId rest token,
    id position = Some i
    /\ split "-" i = poolId :: tokenId :: rest
    /\ StringToBigInt tokenId = Some token
    /\ unhealthyList env (Some poolId) token (world s) = (Ok true, world s')
    /\ console s' = console s.
Proof.
  unfold checkLiquidatableStatus. unfold_js.
  destruct (id position) as [i|]; [|discriminate].
  destruct (split "-" i) as [|poolId [|tokenId rest]] eqn:Hsplit; try discriminate.
  simpl. unfold BigInt.
  destruct (StringToBigInt tokenId) as [token|] eqn:Hbig; [|discriminate].
  simpl.
  destruct (unhealthyList env (Some poolId) token (world s)) as [[b|e] w] eqn:Hread;
    simpl; intros H; inversion H; subst.
  exists i, poolId, tokenId, rest, token. simpl. auto.
Qed.

(** X3: [fetchFloorPrice] never throws and never writes the table.  It
    returns the Number of the price the oracle gave and logs nothing, or it
    returns [0] and logs the one error it swallowed. *)
Theorem fetchFloorPrice_answers_or_defaults
  (oracleAddress : string) (tokenId : Z) (s : State W) :
  exists price s',
    fetchFloorPrice env oracleAddress tokenId s = (Ok price, s')
    /\ table s' = table s
    /\ invocations s' = invocations s
    /\ ((exists onchain,
            fst (getPrice env oracleAddress tokenId (world s)) = Ok onchain
            /\ price = Number_of_BigInt onchain
            /\ console s' = console s)
        \/ (exists e,
               fst (getPrice env oracleAddress tokenId (world s)) = Throw e
               /\ price = Number_of_Z 0
               /\ console s' = (console s ++ [("Error fetching price:", e)])%list)).
Proof.
  unfold fetchFloorPrice. unfold_js.
  destruct (getPrice env oracleAddress tokenId (world s)) as [[onchain|e] w]; simpl.
  - eexists. eexists. repeat split. left. exists onchain. auto.
  - eexists. eexists. repeat split. right. exists e. auto.
Qed.

End Readers.

Section Loop.
Context {W : Type} (env : Env W).

(** The loop over a concatenation is the loop over the first list followed
    by the loop over the second, which goes on pushing on the same result. *)
Lemma for_positions_app (nfts : NftBody) (before after : list PositionSchema) :
  forall (acc : list AuctionApiSchema) (s : State W),
    for_positions env nfts (before ++ after)%list acc s =
      bind (for_positions env nfts before acc)
           (fun acc' => for_positions env nfts after acc') s.
Proof.
  induction before as [|p rest IH]; intros acc s; simpl.
  - reflexivity.
  - unfold bind in *.
    destruct (visit env nfts p s) as [[pushed|e] s1]; [|reflexivity].
    apply IH.
Qed.

(** One turn of the loop on a liquidatable position, up to the oracle read. *)
Lemma visit_liquidatable
  (nfts : NftBody) (p : PositionSchema) (s : State W)
  (i poolId segment t : string) (rest : list string) (a b : Z) (w1 : W) :
  id p = Some i ->
  split "-" i = poolId :: segment :: rest ->
  StringToBigInt segment = Some a ->
  unhealthyList env (Some poolId) a (world s) = (Ok true, w1) ->
  tokenId p = value t ->
  StringToBigInt t = Some b ->
  visit env nfts p s =
    bind (fetchFloorPrice env (oracle (pool p)) b)
      (fun price =>
         bind (match ownedNfts nfts with
               | value l => ret l
               | undefined =>
                   throw (TypeError "Cannot read properties of undefined (reading 'find')")
               | null =>
                   throw (TypeError "Cannot read properties of null (reading 'find')")
               end)
           (fun owned =>
              ret (Some {| nftData :=
                             match List.find
                                     (fun nft => strict_eq (nft_tokenId nft) (value t)) owned
                             with
                             | Some nft => nft
                             | None => empty_object
                             end;
                           isLiquidatableStatus := true;
                           position := p;
                           floorPrice := Number_toString price;
                           debt := calculateDebt p |})))
      {| world := w1; console := console s; table := table s;
         invocations := invocations s |}.
Proof.
  intros Hid Hsplit Ha Hread Ht Hb.
  unfold visit. unfold bind at 1.
  rewrite (checkLiquidatableStatus_returns_the_read env p s _ _ _ _ _ _ _
             Hid Hsplit Ha Hread).
  cbv iota. rewrite Ht. unfold bind at 1. unfold eval, BigInt. rewrite Hb.
  reflexivity.
Qed.

(** X4: the two reads for a position take their token from different
    fields.  The liquidatability read gets the BigInt of the second segment
    of [id]; the oracle read gets the BigInt of [tokenId].  When both
    answer, the record pushed carries the rendering of the oracle's price,
    the debt of the position and the NFT joined on [tokenId], and nothing is
    logged. *)
Theorem visit_reads_id_then_tokenId
  (nfts : NftBody) (owned : list AlchemyNftSchema) (p : PositionSchema) (s : State W)
  (i poolId segment t : string) (rest : list string) (a b price : Z) (w1 w2 : W) :
  id p = Some i ->
  split "-" i = poolId :: segment :: rest ->
  StringToBigInt segment = Some a ->
  unhealthyList env (Some poolId) a (world s) = (Ok true, w1) ->
  tokenId p = value t ->
  StringToBigInt t = Some b ->
  getPrice env (oracle (pool p)) b w1 = (Ok price, w2) ->
  ownedNfts nfts = value owned ->
  exists record,
    visit env nfts p s =
      (Ok (Some record),
       {| world := w2; console := console s; table := table s;
          invocations := invocations s |})
    /\ position record = p
    /\ isLiquidatableStatus record = true
    /\ floorPrice record = Number_toString (Number_of_BigInt price)
    /\ debt record = calculateDebt p
    /\ joined_on t owned (nftData record).
Proof.
  intros Hid Hsplit Ha Hread Ht Hb Hprice Ho.
  rewrite (visit_liquidatable nfts p s _ _ _ _ _ _ _ _ Hid Hsplit Ha Hread Ht Hb).
  unfold bind at 1. unfold fetchFloorPrice. unfold try_catch, bind at 1, call.
  cbn [world]. rewrite Hprice. cbv iota beta. unfold ret at 1. cbv iota beta.
  rewrite Ho. unfold bind, ret.
  eexists. split; [reflexivity|].
  cbn [position isLiquidatableStatus floorPrice debt nftData].
  repeat split. apply find_joined_on.
Qed.

(** X5: a failing oracle does not drop a liquidatable position.  The
    record is pushed all the same, with floor price ["0"], and the error is
    logged once. *)
Theorem visit_keeps_the_record_without_a_price
  (nfts : NftBody) (owned : list AlchemyNftSchema) (p : PositionSchema) (s : State W)
  (i poolId segment t : string) (rest : list string) (a b : Z) (e : exn) (w1 w2 : W) :
  id p = Some i ->
  split "-" i = poolId :: segment :: rest ->
  StringToBigInt segment = Some a ->
  unhealthyList env (Some poolId) a (world s) = (Ok true, w1) ->
  tokenId p = value t ->
  StringToBigInt t = Some b ->
  getPrice env (oracle (pool p)) b w1 = (Throw e, w2) ->
  ownedNfts nfts = value owned ->
  exists record,
    visit env nfts p s =
      (Ok (Some record),
       {| world := w2;
          console := (console s ++ [("Error fetching price:", e)])%list;
          table := table s;
          invocations := invocations s |})
    /\ position record = p
    /\ floorPrice record = "0"
    /\ debt record = calculateDebt p
    /\ joined_on t owned (nftData record).
Proof.
  intros Hid Hsplit Ha Hread Ht Hb Hprice Ho.
  rewrite (visit_liquidatable nfts p s _ _ _ _ _ _ _ _ Hid Hsplit Ha Hread Ht Hb).
  unfold bind at 1. unfold fetchFloorPrice. unfold try_catch, bind at 1, call.
  cbn [world]. rewrite Hprice. cbv iota beta.
  unfold bind at 1. unfold console_error. cbv iota beta. unfold ret at 1.
  cbn [world console table invocations].
  rewrite Ho. unfold bind, ret.
  eexists. split; [reflexivity|].
  cbn [position floorPrice debt nftData].
  repeat split. apply find_joined_on.
Qed.

(** X6: a liquidatable position whose [tokenId] is not a BigInt aborts the
    whole loop: the error of [BigInt] is thrown, the records pushed for the
    positions before it are lost and the positions after it are not
    visited. *)
Theorem for_positions_aborts_on_a_bad_tokenId
  (nfts : NftBody) (before after : list PositionSchema) (p : PositionSchema)
  (acc acc' : list AuctionApiSchema) (s s0 s1 : State W) (e : exn) :
  for_positions env nfts before acc s = (Ok acc', s0) ->
  checkLiquidatableStatus env p s0 = (Ok true, s1) ->
  BigInt (tokenId p) = Throw e ->
  for_positions env nfts (before ++ p :: after)%list acc s = (Throw e, s1).
Proof.
  intros Hbefore Hcheck Hbig.
  rewrite for_positions_app. unfold bind at 1. rewrite Hbefore.
  simpl. unfold bind at 1. unfold visit. unfold bind at 1. rewrite Hcheck.
  cbv iota. unfold bind at 1. unfold eval. rewrite Hbig. reflexivity.
Qed.

(** X7: when the checker returns [false] for every position, the loop
    returns the result it started with, whatever the NFT data is, even
    without its [ownedNfts]. *)
Theorem for_positions_pushes_nothing_for_healthy_positions
  (nfts : NftBody) (positions : list PositionSchema) :
  forall (acc : list AuctionApiSchema) (s : State W),
    Forall (fun v => v = Ok false) (verdicts env nfts positions s) ->
    exists s',
      for_positions env nfts positions acc s = (Ok acc, s')
      /\ table s' = table s
      /\ invocations s' = invocations s.
Proof.
  induction positions as [|p rest IH]; intros acc s H; simpl in *.
  - exists s. auto.
  - inversion H as [|? ? Hv Hrest]; subst.
    unfold verdict in Hv.
    destruct (checkLiquidatableStatus env p s) as [r s1] eqn:Hc. simpl in Hv. subst r.
    destruct (read_only_checkLiquidatableStatus env p _ _ _ Hc) as [Ht Hi].
    assert (Hvisit : visit env nfts p s = (Ok None, s1)).
    { unfold visit. unfold bind at 1. rewrite Hc. reflexivity. }
    rewrite Hvisit in Hrest. simpl in Hrest.
    unfold bind at 1. rewrite Hvisit.
    destruct (IH acc s1 Hrest) as (s' & Hloop & Ht' & Hi').
    exists s'. repeat split; congruence.
Qed.

End Loop.

Section Responses.
Context {W : Type} (env : Env W).

(** X8: the handler never throws.  When the aggregator throws, it answers
    500 with the fixed [error] text and, as [details], the message of the
    error (['Unknown error'] for a thrown value that is not an [Error]); the
    table is untouched and [upsertLiquidations] is not called.  When the
    aggregator returns a list, [upsertLiquidations] is called with it, and
    the answer is 200 with the list if that call is fulfilled, and 500 with
    the message of its rejection if it is rejected. *)
Theorem GET_always_responds (s : State W) :
  exists response s',
    GET env s = (Ok response, s')
    /\ match getAllLiquidatable env s with
       | (Throw e, _) =>
           response =
             {| body := ErrorBody "Failed to fetch positions" (message_or_unknown e);
                http_status := 500 |}
           /\ table s' = table s
           /\ invocations s' = invocations s
       | (Ok result, s1) =>
           invocations s' = (invocations s ++ [result])%list
           /\ match fst (upsertLiquidations env result s1) with
              | Ok _ =>
                  response = {| body := ResultBody result; http_status := 200 |}
              | Throw e =>
                  response =
                    {| body := ErrorBody "Failed to fetch positions"
                                 (message_or_unknown e);
                       http_status := 500 |}
              end
       end.
Proof.
  destruct (getAllLiquidatable env s) as [[result|e] s1] eqn:H.
  - destruct (read_only_getAllLiquidatable env _ _ _ H) as [_ Hi].
    destruct (upsertLiquidations env result s1) as [r s2] eqn:Hu.
    rewrite (GET_after_the_aggregator env _ _ _ _ _ H Hu).
    destruct (upsertLiquidations_result env _ _ _ _ Hu) as (_ & Hi' & _).
    destruct r as [rows|e]; eexists; eexists; (split; [reflexivity|]); simpl;
      split; congruence.
  - rewrite (GET_failure env _ _ _ H). eexists. eexists.
    split; [reflexivity|]. simpl. auto.
Qed.

(** X9: when the NFT proxy answers with a status that is not a success,
    after the indexer delivered its positions, the handler answers 500 with
    that status in [details]; no position is checked, the error is logged at
    each of the three layers, and nothing is persisted. *)
Theorem GET_when_nft_proxy_fails
  (s : State W) (response : Response GraphQLBody) (d : GraphQLData)
  (nft_response : Response NftBody) (w1 w2 : W) :
  fetch_graphql env (world s) = (Ok response, w1) ->
  ok response = true ->
  json response = Ok {| data := value d |} ->
  fetch_nft env w1 = (Ok nft_response, w2) ->
  ok nft_response = false ->
  GET env s =
    (Ok {| body := ErrorBody "Failed to fetch positions"
                     ("NFT data fetch failed with status "
                      ++ string_of_Z (status nft_response));
           http_status := 500 |},
     {| world := w2;
        console :=
          (console s
           ++ [("Error fetching NFT data:",
                Error ("NFT data fetch failed with status "
                       ++ string_of_Z (status nft_response)));
               ("Error fetching liquidatable positions:",
                Error ("NFT data fetch failed with status "
                       ++ string_of_Z (status nft_response)));
               ("Detailed error:",
                Error ("NFT data fetch failed with status "
                       ++ string_of_Z (status nft_response)))])%list;
        table := table s;
        invocations := invocations s |}).
Proof.
  intros Hf Hok Hj Hn Hnok.
  unfold GET, getAllLiquidatable, fetchGraphQLPositions, fetchNFTData. unfold_js.
  rewrite Hf. simpl. rewrite Hok, Hj. simpl.
  rewrite Hn. simpl. rewrite Hnok. simpl.
  rewrite <- !app_assoc. reflexivity.
Qed.

(** X10: a response of the indexer that is a success but whose body has no
    [data], or a [data] without [positions], is a failure of the request:
    the handler answers 500, not an empty list, and persists nothing. *)
Theorem GET_without_positions
  (s : State W) (response : Response GraphQLBody) (body : GraphQLBody) (w1 : W) :
  fetch_graphql env (world s) = (Ok response, w1) ->
  ok response = true ->
  json response = Ok body ->
  match data body with
  | value d => positions d = None
  | undefined | null => True
  end ->
  exists details s',
    GET env s =
      (Ok {| body := ErrorBody "Failed to fetch positions" details;
             http_status := 500 |}, s')
    /\ table s' = table s
    /\ invocations s' = invocations s.
Proof.
  intros Hf Hok Hj Hnone.
  assert (Hthrow : exists e s1, getAllLiquidatable env s = (Throw e, s1)).
  { unfold getAllLiquidatable, fetchGraphQLPositions.
    unfold try_catch at 1. unfold bind at 1. unfold try_catch at 1.
    unfold bind at 1. unfold call. rewrite Hf. cbv iota beta.
    rewrite Hok. cbv iota. unfold negb. cbv iota.
    unfold bind at 1. unfold eval. rewrite Hj. cbv iota beta.
    destruct (data body) as [| |d].
    - unfold_js. eauto.
    - unfold_js. eauto.
    - rewrite Hnone. unfold ret at 1. cbv iota beta.
      unfold bind at 1.
      match goal with |- context [fetchNFTData env ?st] =>
        destruct (fetchNFTData env st) as [[nfts|e] s0] end;
        unfold_js; eauto. }
  destruct Hthrow as (e & s1 & Hthrow).
  rewrite (GET_failure env _ _ _ Hthrow). eexists. eexists.
  split; [reflexivity|]. simpl. auto.
Qed.

(** X16: with no position at the indexer the handler answers 200 with the
    empty list, whatever the NFT proxy sent as body; no contract is read,
    nothing is logged, the table is left as it is, and [upsertLiquidations]
    is called once, with the empty list. *)
Theorem GET_without_any_position
  (s : State W) (response : Response GraphQLBody) (nft_response : Response NftBody)
  (nfts : NftBody) (w1 w2 : W) :
  fetch_graphql env (world s) = (Ok response, w1) ->
  ok response = true ->
  json response = Ok {| data := value {| positions := Some [] |} |} ->
  fetch_nft env w1 = (Ok nft_response, w2) ->
  ok nft_response = true ->
  json nft_response = Ok nfts ->
  GET env s =
    (Ok {| body := ResultBody []; http_status := 200 |},
     {| world := w2; console := console s; table := table s;
        invocations := (invocations s ++ [[]])%list |}).
Proof.
  intros Hf Hok Hj Hn Hnok Hnj.
  unfold GET, getAllLiquidatable, fetchGraphQLPositions, fetchNFTData,
    upsertLiquidations, record_invocation.
  unfold_js.
  rewrite Hf. simpl. rewrite Hok, Hj. simpl.
  rewrite Hn. simpl. rewrite Hnok, Hnj. reflexivity.
Qed.


End Responses.

(** ** The properties on the scenarios *)

Module Witness.
Import Scenario.

Lemma accepts_in_healthy_world : accepts_every_upsert healthy_world.
Proof. intros request w. reflexivity. Qed.

Lemma accepts_in_mixed_world : accepts_every_upsert mixed_world.
Proof. intros request w. reflexivity. Qed.


Lemma accepts_in_last_first : accepts_every_upsert last_first.
Proof. intros request w. reflexivity. Qed.


Lemma checkLiquidatableStatus_swallows_read_error_chain_down :
  unhealthyList chain_down (Some "0xabc") 7 tt = (Throw (Error "HTTP request failed."), tt)
  /\ checkLiquidatableStatus chain_down the_position (initial_state tt) =
       (Ok false,
        {| world := tt;
           console := [("Error checking liquidatable status:",
                        Error "HTTP request failed.")];
           table := [];
           invocations := [] |}).
Proof.
  split; [reflexivity|].
  apply (checkLiquidatableStatus_swallows_read_error chain_down the_position
           (initial_state tt) "0xabc-7" "0xabc" "7" [] 7
           (Error "HTTP request failed.") tt); reflexivity.
Defined.

Lemma checkLiquidatableStatus_without_token_segment_no_separator :
  contains "-" "0xabc7" = false
  /\ checkLiquidatableStatus healthy_world no_separator (initial_state tt) =
       (Ok false,
        {| world := tt;
           console := [("Error checking liquidatable status:",
                        TypeError "Cannot convert undefined to a BigInt")];
           table := [];
           invocations := [] |}).
Proof.
  split; [reflexivity|].
  apply (checkLiquidatableStatus_without_token_segment healthy_world no_separator
           (initial_state tt)).
  right. exists "0xabc7". split; reflexivity.
Defined.

Lemma fetchFloorPrice_swallows_read_error_chain_down :
  getPrice chain_down "0x0rac1e" 7 tt = (Throw (Error "HTTP request failed."), tt)
  /\ fetchFloorPrice chain_down "0x0rac1e" 7 (initial_state tt) =
       (Ok (Number_of_Z 0),
        {| world := tt;
           console := [("Error fetching price:", Error "HTTP request failed.")];
           table := [];
           invocations := [] |}).
Proof.
  split; [reflexivity|].
  apply (fetchFloorPrice_swallows_read_error chain_down "0x0rac1e" 7
           (initial_state tt) (Error "HTTP request failed.") tt).
  reflexivity.
Defined.

Lemma getAllLiquidatable_keeps_the_liquidatable_mixed_world :
  getAllLiquidatable mixed_world (initial_state tt) = (Ok [the_record], initial_state tt)
  /\ exists ps nfts sa s0 response s2 applied,
       fetchGraphQLPositions mixed_world (initial_state tt) = (Ok (Some ps), sa)
       /\ fetchNFTData mixed_world sa = (Ok nfts, s0)
       /\ map position [the_record] = liquidatable ps (verdicts mixed_world nfts ps s0)
       /\ Forall (fun record => isLiquidatableStatus record = true) [the_record]
       /\ (length [the_record]
           + length (healthy ps (verdicts mixed_world nfts ps s0)))%nat = length ps
       /\ GET mixed_world (initial_state tt) = (Ok response, s2)
       /\ invocations s2 = (invocations (initial_state tt) ++ [[the_record]])%list
       /\ incl applied [the_record]
       /\ table s2 = persisted applied (table (initial_state tt))
       /\ (accepts_every_upsert mixed_world ->
           response = {| body := ResultBody [the_record]; http_status := 200 |}
           /\ Permutation applied [the_record]).
Proof.
  split; [vm_compute; reflexivity|].
  apply (getAllLiquidatable_keeps_the_liquidatable mixed_world
           (initial_state tt) (initial_state tt) [the_record]).
  vm_compute. reflexivity.
Defined.

Lemma getAllLiquidatable_joins_by_token_id_healthy_world :
  getAllLiquidatable healthy_world (initial_state tt) = (Ok [the_record], initial_state tt)
  /\ exists ps nfts sa s0,
       fetchGraphQLPositions healthy_world (initial_state tt) = (Ok (Some ps), sa)
       /\ fetchNFTData healthy_world sa = (Ok nfts, s0)
       /\ Forall (joined nfts) [the_record].
Proof.
  split; [vm_compute; reflexivity|].
  apply (getAllLiquidatable_joins_by_token_id healthy_world
           (initial_state tt) (initial_state tt) [the_record]).
  vm_compute. reflexivity.
Defined.

Lemma GET_when_indexer_fails_503 :
  ok (@unavailable GraphQLBody) = false
  /\ GET indexer_down (initial_state tt) =
       (Ok {| body := ErrorBody "Failed to fetch positions"
                        "GraphQL request failed with status 503";
              http_status := 500 |},
        {| world := tt;
           console :=
             [("Error fetching GraphQL positions:",
               Error "GraphQL request failed with status 503");
              ("Error fetching liquidatable positions:",
               Error "GraphQL request failed with status 503");
              ("Detailed error:",
               Error "GraphQL request failed with status 503")];
           table := [];
           invocations := [] |}).
Proof.
  split; [reflexivity|].
  apply (GET_when_indexer_fails indexer_down (initial_state tt) unavailable tt);
    reflexivity.
Defined.


Lemma GET_single_liquidatable_position_healthy_world :
  exists record s',
    GET healthy_world (initial_state tt) =
      (Ok {| body := ResultBody [record]; http_status := 200 |}, s')
    /\ position record = the_position
    /\ debt record = "500"
    /\ floorPrice record = "250"
    /\ joined_on "7" [other_nft; the_nft] (nftData record)
    /\ where_of record =
         {| Liquidation.k_addressIP :=
              or_default (match contract (nftData record) with
                          | Some c => address c
                          | None => None
                          end) "";
            Liquidation.k_tokenId := "7" |}
    /\ rows_with (where_of record) (table s') = [create_of record]
    /\ Liquidation.debt (create_of record) = "500"
    /\ Liquidation.floorPrice (create_of record) = "250".
Proof.
  apply (GET_single_liquidatable_position healthy_world (initial_state tt)
           the_position [other_nft; the_nft]
           (ok_response {| data := value {| positions := Some [the_position] |} |})
           (ok_response {| ownedNfts := value [other_nft; the_nft] |})
           tt tt tt tt);
    try reflexivity.
  - exact (NoDup_nil _).
  - exact accepts_in_healthy_world.
Defined.

(** Two records without NFT metadata, upserted last first: one row under
    ([''], ["7"]), with the values of the record taken last. *)
Lemma placeholder_records_share_a_row_orphans :
  upsertLiquidations last_first [orphan "1"; orphan "2"] (initial_state tt) =
    (Ok (map create_of [orphan "1"; orphan "2"]),
     {| world := tt; console := []; table := [create_of (orphan "1")];
        invocations := [[orphan "1"; orphan "2"]] |})
  /\ Liquidation.where_ (request_of (orphan "1"))
     = {| Liquidation.k_addressIP := ""; Liquidation.k_tokenId := token_of (orphan "1") |}
  /\ Liquidation.where_ (request_of (orphan "2"))
     = Liquidation.where_ (request_of (orphan "1"))
  /\ Liquidation.addressIP (Liquidation.create (request_of (orphan "1"))) = ""
  /\ Liquidation.addressIP (Liquidation.create (request_of (orphan "2"))) = ""
  /\ Ok (map create_of [orphan "1"; orphan "2"])
     = Ok (map create_of [orphan "1"; orphan "2"])
  /\ exists winner,
       In winner [orphan "1"; orphan "2"]
       /\ collateral_address winner = ""
       /\ token_of winner = token_of (orphan "1")
       /\ rows_with {| Liquidation.k_addressIP := "";
                       Liquidation.k_tokenId := token_of (orphan "1") |}
            [create_of (orphan "1")]
          = [create_of winner].
Proof.
  split; [vm_compute; reflexivity|].
  apply (placeholder_records_share_a_row last_first
           [orphan "1"; orphan "2"] (orphan "1") (orphan "2")
           (initial_state tt)
           {| world := tt; console := []; table := [create_of (orphan "1")];
              invocations := [[orphan "1"; orphan "2"]] |}
           (Ok (map create_of [orphan "1"; orphan "2"]))).
  - exact accepts_in_last_first.
  - exact (NoDup_nil _).
  - simpl. auto.
  - simpl. auto.
  - reflexivity.
  - reflexivity.
  - reflexivity.
  - vm_compute. reflexivity.
Defined.

End Witness.

(** ** The runtime model on known values *)

Module Checks.

Example split_position_id : split "-" "0xabc-7" = ["0xabc"; "7"].
Proof. reflexivity. Qed.

Example split_three_segments : split "-" "0xabc-7-1" = ["0xabc"; "7"; "1"].
Proof. reflexivity. Qed.

Example BigInt_decimal : BigInt (value "7") = Ok 7.
Proof. vm_compute. reflexivity. Qed.

Example BigInt_hexadecimal : BigInt (value " 0x1F ") = Ok 31.
Proof. vm_compute. reflexivity. Qed.

Example BigInt_empty : BigInt (value "") = Ok 0.
Proof. vm_compute. reflexivity. Qed.

Example BigInt_not_an_integer :
  BigInt (value "1e3") = Throw (SyntaxError "Cannot convert 1e3 to a BigInt").
Proof. vm_compute. reflexivity. Qed.

Example BigInt_undefined :
  BigInt undefined = Throw (TypeError "Cannot convert undefined to a BigInt").
Proof. reflexivity. Qed.

Example BigInt_null :
  BigInt null = Throw (TypeError "Cannot convert null to a BigInt").
Proof. reflexivity. Qed.

(** Division and multiplication agree with the binary64 operations of the
    Standard Library's [SpecFloat]. *)
Example Number_div_third :
  Number_div (Number_of_Z 1) (Number_of_Z 3)
  = SFdiv 53 1024 (Number_of_Z 1) (Number_of_Z 3).
Proof. vm_compute. reflexivity. Qed.

Example Number_div_subnormal :
  Number_div (S754_finite false 4503599627370496 (-1052)) (Number_of_Z (2 ^ 70 + 12345))
  = SFdiv 53 1024 (S754_finite false 4503599627370496 (-1052))
      (Number_of_Z (2 ^ 70 + 12345)).
Proof. vm_compute. reflexivity. Qed.

Example Number_div_underflow :
  Number_div (S754_finite false 1 (-1074)) (Number_of_Z 2) = S754_zero false
  /\ SFdiv 53 1024 (S754_finite false 1 (-1074)) (Number_of_Z 2) = S754_zero false.
Proof. split; vm_compute; reflexivity. Qed.

Example Number_mul_tenth :
  Number_mul (Number_div (Number_of_Z 1) (Number_of_Z 10)) (Number_of_Z 3)
  = SFmul 53 1024 (SFdiv 53 1024 (Number_of_Z 1) (Number_of_Z 10)) (Number_of_Z 3).
Proof. vm_compute. reflexivity. Qed.

Example Number_mul_overflow :
  Number_mul (Number_of_Z (2 ^ 1023)) (Number_of_Z 2) = S754_infinity false
  /\ SFmul 53 1024 (Number_of_Z (2 ^ 1023)) (Number_of_Z 2) = S754_infinity false.
Proof. split; vm_compute; reflexivity. Qed.

Example Number_of_Z_ties_to_even :
  Number_of_Z (2 ^ 53 + 1) = Number_of_Z (2 ^ 53)
  /\ Number_of_Z (2 ^ 53 + 3) = Number_of_Z (2 ^ 53 + 4)
  /\ Number_of_Z (2 ^ 53 + 1) = binary_normalize 53 1024 (2 ^ 53 + 1) 0 false.
Proof. repeat split; vm_compute; reflexivity. Qed.

Example toString_integer : Number_toString (Number_of_Z 250) = "250".
Proof. vm_compute. reflexivity. Qed.

Example toString_tenth :
  Number_toString (Number_div (Number_of_Z 1) (Number_of_Z 10)) = "0.1".
Proof. vm_compute. reflexivity. Qed.

Example toString_three_tenths :
  Number_toString
    (Number_mul (Number_div (Number_of_Z 1) (Number_of_Z 10)) (Number_of_Z 3))
  = "0.30000000000000004".
Proof. vm_compute. reflexivity. Qed.

Example toString_third :
  Number_toString (Number_div (Number_of_Z 1) (Number_of_Z 3)) = "0.3333333333333333".
Proof. vm_compute. reflexivity. Qed.

Example toString_negative :
  Number_toString (Number_div (Number_of_Z (-15)) (Number_of_Z 10)) = "-1.5".
Proof. vm_compute. reflexivity. Qed.

Example toString_large_integer :
  Number_toString (Number_of_Z (2 ^ 64)) = "18446744073709552000".
Proof. vm_compute. reflexivity. Qed.

Example toString_exponent : Number_toString (Number_of_Z (10 ^ 21)) = "1e+21".
Proof. vm_compute. reflexivity. Qed.

Example toString_small :
  Number_toString (Number_div (Number_of_Z 1) (Number_of_Z 10000000)) = "1e-7".
Proof. vm_compute. reflexivity. Qed.

Example toString_smallest : Number_toString (S754_finite false 1 (-1074)) = "5e-324".
Proof. vm_compute. reflexivity. Qed.

Example toString_largest :
  Number_toString (S754_finite false (2 ^ 53 - 1) 971) = "1.7976931348623157e+308".
Proof. vm_compute. reflexivity. Qed.

(** What is, and what is not, an unsigned decimal numeral. *)
Example decimal_value_of_a_fraction : decimal_value "123.456" = Some (123456 # 1000)%Q.
Proof. vm_compute. reflexivity. Qed.

Example decimal_value_with_an_exponent : decimal_value "1.5e-7" = Some (15 # 100000000)%Q.
Proof. vm_compute. reflexivity. Qed.

Example decimal_value_rejects_grouping :
  decimal_value "1,234.5" = None /\ decimal_value "1.234.567" = None
  /\ decimal_value "1 234" = None /\ decimal_value "" = None
  /\ decimal_value "NaN" = None /\ decimal_value "-1" = None.
Proof. repeat split; vm_compute; reflexivity. Qed.

(** The unguarded division: no borrow shares in the pool. *)
Example debt_of_an_empty_pool :
  calculateDebt
    {| id := Some "0xabc-7"; account := None;
       pool := {| oracle := "0x0rac1e"; loanAddress := None;
                  totalBorrowShares := Number_of_Z 0;
                  totalBorrowAssets := Number_of_Z 1000 |};
       tokenId := value "7"; bidder := None; borrowShares := Number_of_Z 0 |}
  = "NaN".
Proof. vm_compute. reflexivity. Qed.

Example debt_of_the_idle_position : calculateDebt Scenario.idle_position = "Infinity".
Proof. vm_compute. reflexivity. Qed.

Example debt_of_the_scenario : calculateDebt Scenario.the_position = "500".
Proof. vm_compute. reflexivity. Qed.

(** A database that rejects the upsert: the handler answers 500 after the
    call of [upsertLiquidations], and the table is left as it was. *)
Example GET_when_the_database_is_down :
  GET Scenario.database_down (initial_state tt) =
    (Ok {| body := ErrorBody "Failed to fetch positions" "Can't reach database server";
           http_status := 500 |},
     {| world := tt;
        console := [("Detailed error:", Error "Can't reach database server")];
        table := [];
        invocations := [[Scenario.the_record]] |}).
Proof. vm_compute. reflexivity. Qed.

(** The rows are returned in the order of the records, and stored in the
    order in which the database took the upserts. *)
Example upserts_taken_last_first :
  upsertLiquidations Scenario.last_first [Scenario.the_record; Scenario.other_record]
    (initial_state tt) =
    (Ok [create_of Scenario.the_record; create_of Scenario.other_record],
     {| world := tt; console := [];
        table := [create_of Scenario.other_record; create_of Scenario.the_record];
        invocations := [[Scenario.the_record; Scenario.other_record]] |}).
Proof. vm_compute. reflexivity. Qed.

End Checks.

(** ** The further properties on the scenarios *)

Module Coverage.
Import Scenario.

Lemma accepts_in_the_healthy_world : accepts_every_upsert healthy_world.
Proof. intros request w. reflexivity. Qed.


Lemma checkLiquidatableStatus_true_in_healthy_world :
  exists i poolId tokenId rest token,
    id the_position = Some i
    /\ split "-" i = poolId :: tokenId :: rest
    /\ StringToBigInt tokenId = Some token
    /\ unhealthyList healthy_world (Some poolId) token (world (initial_state tt))
       = (Ok true, world (initial_state tt))
    /\ console (initial_state tt) = console (initial_state tt).
Proof.
  apply (checkLiquidatableStatus_true_comes_from_the_contract healthy_world
           the_position (initial_state tt) (initial_state tt)).
  vm_compute. reflexivity.
Defined.

Lemma visit_reads_id_then_tokenId_in_pricing_world :
  exists record,
    visit pricing_world {| ownedNfts := value [other_nft; the_nft] |}
      mismatched_position (initial_state tt)
    = (Ok (Some record), initial_state tt)
    /\ position record = mismatched_position
    /\ isLiquidatableStatus record = true
    /\ floorPrice record = Number_toString (Number_of_BigInt 900)
    /\ debt record = calculateDebt mismatched_position
    /\ joined_on "9" [other_nft; the_nft] (nftData record).
Proof.
  apply (visit_reads_id_then_tokenId pricing_world
           {| ownedNfts := value [other_nft; the_nft] |} [other_nft; the_nft]
           mismatched_position (initial_state tt)
           "0xabc-7" "0xabc" "7" "9" [] 7 9 900 tt tt);
    vm_compute; reflexivity.
Defined.

Lemma visit_keeps_the_record_when_the_oracle_is_down :
  exists record,
    visit oracle_down {| ownedNfts := value [other_nft; the_nft] |}
      the_position (initial_state tt)
    = (Ok (Some record),
       {| world := tt;
          console := [("Error fetching price:", Error "HTTP request failed.")];
          table := [];
          invocations := [] |})
    /\ position record = the_position
    /\ floorPrice record = "0"
    /\ debt record = calculateDebt the_position
    /\ joined_on "7" [other_nft; the_nft] (nftData record).
Proof.
  apply (visit_keeps_the_record_without_a_price oracle_down
           {| ownedNfts := value [other_nft; the_nft] |} [other_nft; the_nft]
           the_position (initial_state tt)
           "0xabc-7" "0xabc" "7" "7" [] 7 7 (Error "HTTP request failed.") tt tt);
    vm_compute; reflexivity.
Defined.

Lemma for_positions_aborts_after_a_record :
  for_positions mixed_world {| ownedNfts := value [other_nft; the_nft] |}
    [the_position] [] (initial_state tt)
  = (Ok [the_record], initial_state tt)
  /\ for_positions mixed_world {| ownedNfts := value [other_nft; the_nft] |}
       ([the_position] ++ tokenless_position :: [healthy_position])%list []
       (initial_state tt)
     = (Throw (TypeError "Cannot convert undefined to a BigInt"), initial_state tt).
Proof.
  split; [vm_compute; reflexivity|].
  apply (for_positions_aborts_on_a_bad_tokenId mixed_world
           {| ownedNfts := value [other_nft; the_nft] |}
           [the_position] [healthy_position] tokenless_position
           [] [the_record] (initial_state tt) (initial_state tt) (initial_state tt)
           (TypeError "Cannot convert undefined to a BigInt"));
    vm_compute; reflexivity.
Defined.

Lemma for_positions_without_ownedNfts :
  exists s',
    for_positions mixed_world {| ownedNfts := undefined |}
      [healthy_position; healthy_position] [] (initial_state tt)
    = (Ok [], s')
    /\ table s' = table (initial_state tt)
    /\ invocations s' = invocations (initial_state tt).
Proof.
  apply (for_positions_pushes_nothing_for_healthy_positions mixed_world
           {| ownedNfts := undefined |} [healthy_position; healthy_position]
           [] (initial_state tt)).
  vm_compute. repeat constructor.
Defined.

Lemma GET_when_nft_proxy_fails_503 :
  GET proxy_down (initial_state tt) =
    (Ok {| body := ErrorBody "Failed to fetch positions"
                     "NFT data fetch failed with status 503";
           http_status := 500 |},
     {| world := tt;
        console :=
          [("Error fetching NFT data:",
            Error "NFT data fetch failed with status 503");
           ("Error fetching liquidatable positions:",
            Error "NFT data fetch failed with status 503");
           ("Detailed error:",
            Error "NFT data fetch failed with status 503")];
        table := [];
        invocations := [] |}).
Proof.
  apply (GET_when_nft_proxy_fails proxy_down (initial_state tt)
           (ok_response {| data := value {| positions := Some [the_position] |} |})
           {| positions := Some [the_position] |} unavailable tt tt);
    reflexivity.
Defined.

Lemma GET_without_data :
  exists details s',
    GET indexer_without_data (initial_state tt) =
      (Ok {| body := ErrorBody "Failed to fetch positions" details;
             http_status := 500 |}, s')
    /\ table s' = table (initial_state tt)
    /\ invocations s' = invocations (initial_state tt).
Proof.
  apply (GET_without_positions indexer_without_data (initial_state tt)
           (ok_response {| data := undefined |}) {| data := undefined |} tt);
    reflexivity.
Defined.

(** A database that rejects: the error of [upsertLiquidations] is the
    rejection of the upsert of a record of the list. *)
Lemma upsertLiquidations_rejected_when_the_database_is_down :
  upsertLiquidations database_down [the_record] (initial_state tt) =
    (Throw (Error "Can't reach database server"),
     {| world := tt; console := []; table := []; invocations := [[the_record]] |})
  /\ (forall e, Throw (A := list Liquidation.t) (Error "Can't reach database server") = Throw e ->
        exists l w,
          In l [the_record] /\ fst (commit database_down (request_of l) w) = Some e).
Proof.
  split; [vm_compute; reflexivity|].
  apply (upsertLiquidations_returns_the_rows_of_the_records database_down
           [the_record] (initial_state tt)
           {| world := tt; console := []; table := []; invocations := [[the_record]] |}
           (Throw (Error "Can't reach database server"))).
  vm_compute. reflexivity.
Defined.



Lemma getAllLiquidations_reads_back_the_orphans :
  exists rows,
    getAllLiquidations healthy_world
      {| world := tt; console := []; table := [create_of (orphan "2")];
         invocations := [[orphan "1"; orphan "2"]] |}
    = (Ok rows,
       {| world := tt; console := []; table := [create_of (orphan "2")];
          invocations := [[orphan "1"; orphan "2"]] |})
    /\ (forall l, In l [orphan "1"; orphan "2"] ->
          exists l',
            In l' [orphan "1"; orphan "2"]
            /\ stored_under l' = stored_under l
            /\ In (create_of l') rows)
    /\ (NoDup (map stored_under [orphan "1"; orphan "2"]) ->
        forall l, In l [orphan "1"; orphan "2"] -> In (create_of l) rows).
Proof.
  apply (getAllLiquidations_reads_back_the_upserts healthy_world
           [orphan "1"; orphan "2"] (initial_state tt)
           {| world := tt; console := []; table := [create_of (orphan "2")];
              invocations := [[orphan "1"; orphan "2"]] |}
           (Ok (map create_of [orphan "1"; orphan "2"])) None tt).
  - exact accepts_in_the_healthy_world.
  - vm_compute. reflexivity.
  - reflexivity.
Defined.

Lemma calculateDebt_of_the_idle_position :
  calculateDebt idle_position = "NaN"
  \/ calculateDebt idle_position = "Infinity"
  \/ calculateDebt idle_position = "-Infinity".
Proof.
  apply (calculateDebt_of_a_pool_without_borrow_shares idle_position false).
  reflexivity.
Defined.

Lemma GET_without_any_position_at_the_empty_indexer :
  GET empty_indexer (initial_state tt) =
    (Ok {| body := ResultBody []; http_status := 200 |},
     {| world := tt; console := []; table := [];
        invocations := ([] ++ [[]])%list |}).
Proof.
  apply (GET_without_any_position empty_indexer (initial_state tt)
           (ok_response {| data := value {| positions := Some [] |} |})
           (ok_response {| ownedNfts := undefined |}) {| ownedNfts := undefined |} tt tt);
    reflexivity.
Defined.


End Coverage.
